(** * Output-management client: registry, mode selection, state file, apply

    A shallow embedding of [tools/output_management_client/output_management_client.c].

    Conventions of the embedding.
    - A [wl_list] is a Rocq list in the order [wl_list_for_each] visits it.
      [wl_list_insert (&list, &elm->link)] links the element right after the
      list head, so it is [cons].
    - A protocol object (a [wl_proxy] pointer) is an [object_id].  libwayland
      creates a fresh proxy for every [new_id] argument, so distinct
      [mode_info]/[head_info] structures carry distinct [obj] fields; the
      pointer [head_info.current] is therefore recorded as the [obj] of the
      [mode_info] it points to and dereferenced by looking that entry up
      (lemma [current_mode_resolves]).
    - [int32_t]/[int] values are integers in [Z]; the range of the C type is
      the predicate [int32_range].
    - Allocation ([calloc], [strdup]) is assumed to succeed.
    - Everything the program does to the outside (requests sent to the
      compositor, lines written to [stderr]) is collected in a list of
      [effect]s, oldest first.  A request is recorded when the client calls
      its function; libwayland queues it and writes it to the compositor at
      the next [wl_display_roundtrip].
    - [load_state] returns its list head, a [struct wl_list], by value.  The
      nodes it linked, and the head of an empty list, point to the head in
      the frame of [load_state], which is gone when [apply_restore] holds the
      copy.  A walk from the copy visits the nodes in order and is defined as
      long as it stops on one of them; a walk that passes the last node reads
      the dead frame and never meets the address it is compared with.  Such
      a run ends with the [status] [Undefined]; the effects listed for it
      are those issued before that point. *)

From Stdlib Require Import ZArith List Ascii String Bool Lia.
Import ListNotations.
Open Scope Z_scope.

(* ------------------------------------------------------------------ *)
(** ** Data model *)

Definition object_id := Z.

(** A C string: the bytes before the terminating NUL. *)
Definition cstring := list ascii.

Record mode_info := {
  mode_obj : object_id;
  mode_width : Z;
  mode_height : Z;
  mode_refresh : Z;
  mode_preferred : bool
}.

Record head_info := {
  head_obj : object_id;
  head_name : option cstring;          (* NULL until a name event *)
  head_enabled : bool;
  head_current : option object_id;     (* NULL, or the mode_info pointed to *)
  head_modes : list mode_info
}.

Record client_state := {
  cs_manager : option (Z * Z);         (* bound global: name, bind version *)
  cs_serial : Z;
  cs_done : bool;
  cs_heads : list head_info
}.

Record restore_entry := {
  entry_name : cstring;
  entry_width : Z;
  entry_height : Z;
  entry_refresh : Z
}.

Definition int32_range (z : Z) : Prop := -2147483648 <= z <= 2147483647.

Definition in_int32 (z : Z) : bool := (-2147483648 <=? z) && (z <=? 2147483647).

Definition mode_fields_int32 (m : mode_info) : Prop :=
  int32_range (mode_width m) /\ int32_range (mode_height m) /\
  int32_range (mode_refresh m).

(** Two's complement reading of the low 64 bits: the value of an [int64_t]
    expression whose mathematical value is [z]. *)
Definition sint64 (z : Z) : Z :=
  (z + 9223372036854775808) mod 18446744073709551616 - 9223372036854775808.

(** Two's complement reading of the low 32 bits (what fits an [int]). *)
Definition sint32 (z : Z) : Z :=
  (z + 2147483648) mod 4294967296 - 2147483648.

(** [*p] for [p = head->current]. *)
Definition current_mode (h : head_info) : option mode_info :=
  match head_current h with
  | None => None
  | Some o => find (fun e => mode_obj e =? o) (head_modes h)
  end.

(* ------------------------------------------------------------------ *)
(** ** C strings *)

Definition NUL : ascii := ascii_of_nat 0.
Definition SP : ascii := ascii_of_nat 32.
Definition NL : ascii := ascii_of_nat 10.
Definition MINUS : ascii := ascii_of_nat 45.
Definition PLUS : ascii := ascii_of_nat 43.

(** [strdup]: the copy ends at the first NUL of the buffer. *)
Fixpoint strdup (s : list ascii) : cstring :=
  match s with
  | [] => []
  | c :: t => if Ascii.eqb c NUL then [] else c :: strdup t
  end.

(** [strcmp (a, b) == 0]. *)
Fixpoint cstr_eqb (a b : cstring) : bool :=
  match a, b with
  | [], [] => true
  | x :: a', y :: b' => Ascii.eqb x y && cstr_eqb a' b'
  | _, _ => false
  end.

(* ------------------------------------------------------------------ *)
(** ** Event handlers (the listeners) *)

Definition mode_handle_size (info : mode_info) (width height : Z) : mode_info :=
  {| mode_obj := mode_obj info; mode_width := width; mode_height := height;
     mode_refresh := mode_refresh info; mode_preferred := mode_preferred info |}.

Definition mode_handle_refresh (info : mode_info) (refresh : Z) : mode_info :=
  {| mode_obj := mode_obj info; mode_width := mode_width info;
     mode_height := mode_height info; mode_refresh := refresh;
     mode_preferred := mode_preferred info |}.

Definition mode_handle_preferred (info : mode_info) : mode_info :=
  {| mode_obj := mode_obj info; mode_width := mode_width info;
     mode_height := mode_height info; mode_refresh := mode_refresh info;
     mode_preferred := true |}.

Definition mode_handle_finished (info : mode_info) : mode_info := info.

Definition head_handle_name (info : head_info) (name : list ascii) : head_info :=
  {| head_obj := head_obj info; head_name := Some (strdup name);
     head_enabled := head_enabled info; head_current := head_current info;
     head_modes := head_modes info |}.

Definition head_handle_enabled (info : head_info) (enabled : Z) : head_info :=
  {| head_obj := head_obj info; head_name := head_name info;
     head_enabled := negb (enabled =? 0); head_current := head_current info;
     head_modes := head_modes info |}.

(** [calloc] zeroes the new [mode_info]; it is linked at the front. *)
Definition head_handle_mode (info : head_info) (mode : object_id) : head_info :=
  let mode_info := {| mode_obj := mode; mode_width := 0; mode_height := 0;
                      mode_refresh := 0; mode_preferred := false |} in
  {| head_obj := head_obj info; head_name := head_name info;
     head_enabled := head_enabled info; head_current := head_current info;
     head_modes := mode_info :: head_modes info |}.

(** The loop assigns [current] at the first entry whose [obj] is [mode] and
    breaks; when no entry matches nothing is assigned. *)
Definition head_handle_current_mode (info : head_info) (mode : object_id)
  : head_info :=
  match find (fun entry => mode_obj entry =? mode) (head_modes info) with
  | Some entry =>
      {| head_obj := head_obj info; head_name := head_name info;
         head_enabled := head_enabled info;
         head_current := Some (mode_obj entry);
         head_modes := head_modes info |}
  | None => info
  end.

Definition head_handle_finished (info : head_info) : head_info := info.

Definition manager_handle_head (state : client_state) (head : object_id)
  : client_state :=
  let info := {| head_obj := head; head_name := None; head_enabled := false;
                 head_current := None; head_modes := [] |} in
  {| cs_manager := cs_manager state; cs_serial := cs_serial state;
     cs_done := cs_done state; cs_heads := info :: cs_heads state |}.

Definition manager_handle_done (state : client_state) (serial : Z)
  : client_state :=
  {| cs_manager := cs_manager state; cs_serial := serial; cs_done := true;
     cs_heads := cs_heads state |}.

Definition manager_handle_finished (state : client_state) : client_state :=
  {| cs_manager := cs_manager state; cs_serial := cs_serial state;
     cs_done := true; cs_heads := cs_heads state |}.

Definition output_manager_interface : string := "zwlr_output_manager_v1".

Definition registry_handle_global (state : client_state) (name : Z)
    (interface : string) (version : Z) : client_state :=
  if String.eqb interface output_manager_interface then
    let bind_version := if version >? 4 then 4 else version in
    {| cs_manager := Some (name, bind_version); cs_serial := cs_serial state;
       cs_done := cs_done state; cs_heads := cs_heads state |}
  else state.

(* ------------------------------------------------------------------ *)
(** ** Event dispatch

    libwayland calls the listener of the proxy an event is addressed to,
    with the [data] pointer registered for that proxy: the [head_info] or
    [mode_info] whose [obj] is that proxy.  Events for which the listener
    table holds [NULL] are not part of the model. *)

Inductive event :=
| EvManagerHead (head : object_id)
| EvManagerDone (serial : Z)
| EvManagerFinished
| EvHeadName (head : object_id) (name : list ascii)
| EvHeadEnabled (head : object_id) (enabled : Z)
| EvHeadMode (head : object_id) (mode : object_id)
| EvHeadCurrentMode (head : object_id) (mode : object_id)
| EvHeadFinished (head : object_id)
| EvModeSize (mode : object_id) (width height : Z)
| EvModeRefresh (mode : object_id) (refresh : Z)
| EvModePreferred (mode : object_id)
| EvModeFinished (mode : object_id).

Fixpoint with_head (o : object_id) (f : head_info -> head_info)
    (heads : list head_info) : list head_info :=
  match heads with
  | [] => []
  | h :: t => if head_obj h =? o then f h :: t else h :: with_head o f t
  end.

Fixpoint with_mode_in (o : object_id) (f : mode_info -> mode_info)
    (modes : list mode_info) : option (list mode_info) :=
  match modes with
  | [] => None
  | m :: t =>
      if mode_obj m =? o then Some (f m :: t)
      else match with_mode_in o f t with
           | Some t' => Some (m :: t')
           | None => None
           end
  end.

Definition set_modes (h : head_info) (modes : list mode_info) : head_info :=
  {| head_obj := head_obj h; head_name := head_name h;
     head_enabled := head_enabled h; head_current := head_current h;
     head_modes := modes |}.

Fixpoint with_mode (o : object_id) (f : mode_info -> mode_info)
    (heads : list head_info) : list head_info :=
  match heads with
  | [] => []
  | h :: t =>
      match with_mode_in o f (head_modes h) with
      | Some modes => set_modes h modes :: t
      | None => h :: with_mode o f t
      end
  end.

Definition set_heads (state : client_state) (heads : list head_info)
  : client_state :=
  {| cs_manager := cs_manager state; cs_serial := cs_serial state;
     cs_done := cs_done state; cs_heads := heads |}.

Definition handle_event (state : client_state) (ev : event) : client_state :=
  match ev with
  | EvManagerHead head => manager_handle_head state head
  | EvManagerDone serial => manager_handle_done state serial
  | EvManagerFinished => manager_handle_finished state
  | EvHeadName head name =>
      set_heads state
        (with_head head (fun i => head_handle_name i name) (cs_heads state))
  | EvHeadEnabled head enabled =>
      set_heads state
        (with_head head (fun i => head_handle_enabled i enabled) (cs_heads state))
  | EvHeadMode head mode =>
      set_heads state
        (with_head head (fun i => head_handle_mode i mode) (cs_heads state))
  | EvHeadCurrentMode head mode =>
      set_heads state
        (with_head head (fun i => head_handle_current_mode i mode)
           (cs_heads state))
  | EvHeadFinished head =>
      set_heads state (with_head head head_handle_finished (cs_heads state))
  | EvModeSize mode width height =>
      set_heads state
        (with_mode mode (fun i => mode_handle_size i width height)
           (cs_heads state))
  | EvModeRefresh mode refresh =>
      set_heads state
        (with_mode mode (fun i => mode_handle_refresh i refresh) (cs_heads state))
  | EvModePreferred mode =>
      set_heads state (with_mode mode mode_handle_preferred (cs_heads state))
  | EvModeFinished mode =>
      set_heads state (with_mode mode mode_handle_finished (cs_heads state))
  end.

Definition handle_events (state : client_state) (evs : list event)
  : client_state :=
  fold_left handle_event evs state.

(* ------------------------------------------------------------------ *)
(** ** Mode selection *)

(** [(int64_t)entry->width * (int64_t)entry->height]. *)
Definition mode_area (entry : mode_info) : Z :=
  sint64 (mode_width entry * mode_height entry).

(** One iteration of the loop of [select_fullscreen_mode] on the locals
    [preferred], [largest], [largest_area]. *)
Definition select_step
    (acc : option mode_info * option mode_info * Z) (entry : mode_info)
  : option mode_info * option mode_info * Z :=
  let '(preferred, largest, largest_area) := acc in
  let preferred := if mode_preferred entry then Some entry else preferred in
  let area := mode_area entry in
  if area >? largest_area then (preferred, Some entry, area)
  else (preferred, largest, largest_area).

Definition select_fullscreen_mode (head : head_info) : option mode_info :=
  let '(preferred, largest, _) :=
    fold_left select_step (head_modes head) (None, None, -1) in
  match preferred with
  | Some p => Some p
  | None => largest
  end.

(* ------------------------------------------------------------------ *)
(** ** The C library: character classes, [fprintf], [fscanf]

    The program never calls [setlocale], so the "C" locale applies:
    white space is the space character and the controls 9 to 13. *)

Definition isspace (c : ascii) : bool :=
  let n := nat_of_ascii c in
  ((n =? 32) || ((9 <=? n) && (n <=? 13)))%nat.

Definition isdigit (c : ascii) : bool :=
  let n := nat_of_ascii c in ((48 <=? n) && (n <=? 57))%nat.

Definition digit_value (c : ascii) : Z := Z.of_nat (nat_of_ascii c) - 48.

Definition digit_char (d : Z) : ascii := ascii_of_nat (Z.to_nat (48 + d)).

(** Decimal digits of [n >= 0], most significant first, pushed in front of
    [acc].  [fuel] bounds the number of digits after the first. *)
Fixpoint print_digits (fuel : nat) (n : Z) (acc : list ascii) : list ascii :=
  let acc' := digit_char (n mod 10) :: acc in
  match fuel with
  | O => acc'
  | S f => if n <? 10 then acc' else print_digits f (n / 10) acc'
  end.

Definition print_nat (n : Z) : list ascii :=
  print_digits (Z.to_nat (Z.log2 n)) n [].

(** The conversion [%d] of [fprintf]. *)
Definition print_int (z : Z) : list ascii :=
  if z <? 0 then MINUS :: print_nat (- z) else print_nat z.

(** Directive of white space in a format, and the white space every
    conversion but [%c], [%[] and [%n] skips first. *)
Fixpoint skip_ws (s : list ascii) : list ascii :=
  match s with
  | c :: t => if isspace c then skip_ws t else s
  | [] => []
  end.

(** The characters [%<width>s] stores: at most [width], up to white space. *)
Fixpoint scan_word (width : nat) (s : list ascii) : list ascii * list ascii :=
  match width, s with
  | S w, c :: t =>
      if isspace c then ([], s)
      else let '(word, rest) := scan_word w t in (c :: word, rest)
  | _, _ => ([], s)
  end.

(** [%<width>s]: [None] is an input failure (end of file before any
    character of the word). *)
Definition conv_s (width : nat) (s : list ascii)
  : option (list ascii * list ascii) :=
  match skip_ws s with
  | [] => None
  | s1 => Some (scan_word width s1)
  end.

Fixpoint scan_digits (acc : Z) (s : list ascii) : Z * list ascii :=
  match s with
  | c :: t => if isdigit c then scan_digits (10 * acc + digit_value c) t
              else (acc, s)
  | [] => (acc, [])
  end.

(** How a call of [apply_restore] or a run of [main] ends: it returns a code,
    or it leaves the behaviour the language defines.  An integer where a
    [status] is expected is that return code. *)
Inductive status :=
| Exit (code : Z)
| Undefined.

Coercion Exit : Z >-> status.

(** The type expected of a tuple, or of [Some] of one, is passed down to its
    components, so that a code written as an integer is read as [Exit]. *)
#[local] Arguments pair {A B}%_type_scope & a b.
#[local] Arguments Some {A}%_type_scope & a.

(** The file-system side of [fopen]: [fs_content] is what a file opened for
    reading holds ([None]: [fopen (path, "r")] fails), [fs_writable] tells
    whether [fopen (path, "w")] succeeds. *)
Record filesystem := {
  fs_content : string -> option (list ascii);
  fs_writable : string -> bool
}.

Definition write_file (fs : filesystem) (path : string) (data : list ascii)
  : filesystem :=
  {| fs_content := fun p => if String.eqb p path then Some data
                            else fs_content fs p;
     fs_writable := fs_writable fs |}.

(* ------------------------------------------------------------------ *)
(** ** What the program does to the outside *)

Inductive diagnostic :=
| MsgOpenFailed (path : string)          (* "Failed to open state file ..." *)
| MsgRestoreNeedsStateFile               (* "--restore requires --state-file" *)
| MsgNoEntries (path : string)           (* "No state entries found in ..." *)
| MsgUsage
| MsgConnectFailed
| MsgNoManager
| MsgRoundtripFailed.

(** [DisableHead] and [TestConfiguration] are requests of the protocol that
    no function of this client sends. *)
Inductive effect :=
| Stderr (msg : diagnostic)
| CreateConfiguration (serial : Z)
| EnableHead (head : object_id)
| DisableHead (head : object_id)
| SetMode (head : object_id) (mode : object_id)
| ApplyConfiguration
| TestConfiguration
| DestroyConfiguration
| DisplayRoundtrip.

(** The head an action of a transaction is about. *)
Definition effect_head (e : effect) : option object_id :=
  match e with
  | EnableHead h | DisableHead h | SetMode h _ => Some h
  | _ => None
  end.

(* ------------------------------------------------------------------ *)
(** ** State file: writing *)

(** ["%s %d %d %d\n"]. *)
Definition format_entry (name : cstring) (width height refresh : Z)
  : list ascii :=
  name ++ SP :: print_int width ++ SP :: print_int height
       ++ SP :: print_int refresh ++ [NL].

(** The loop of [save_state].  The test and the dereference of
    [head->current] go through [current_mode]. *)
Fixpoint save_lines (heads : list head_info) : list ascii :=
  match heads with
  | [] => []
  | head :: rest =>
      match head_name head, current_mode head with
      | Some name, Some cur =>
          format_entry name (mode_width cur) (mode_height cur)
                       (mode_refresh cur) ++ save_lines rest
      | _, _ => save_lines rest
      end
  end.

Definition save_state (path : string) (state : client_state) (fs : filesystem)
  : Z * list effect * filesystem :=
  if fs_writable fs path
  then (0, [], write_file fs path (save_lines (cs_heads state)))
  else (-1, [Stderr (MsgOpenFailed path)], fs).

(* ------------------------------------------------------------------ *)
(** ** Lookups *)

Definition find_restore_entry (entries : list restore_entry) (name : cstring)
  : option restore_entry :=
  find (fun entry => cstr_eqb (entry_name entry) name) entries.

Definition find_mode (head : head_info) (width height refresh : Z)
  : option mode_info :=
  find (fun entry => (mode_width entry =? width)
                     && (mode_height entry =? height)
                     && (mode_refresh entry =? refresh))
       (head_modes head).

(** The loop of [apply_fullscreen]. *)
Fixpoint fullscreen_loop (heads : list head_info) : list effect :=
  match heads with
  | [] => []
  | head :: rest =>
      match select_fullscreen_mode head with
      | None => fullscreen_loop rest
      | Some mode =>
          EnableHead (head_obj head)
            :: SetMode (head_obj head) (mode_obj mode)
            :: fullscreen_loop rest
      end
  end.

Definition apply_fullscreen (state : client_state) (state_file : option string)
    (fs : filesystem) : Z * list effect * filesystem :=
  let '(_, said, fs1) :=
    match state_file with
    | Some path => save_state path state fs
    | None => (0, [], fs)
    end in
  (0,
   said ++ CreateConfiguration (cs_serial state)
        :: fullscreen_loop (cs_heads state)
        ++ [ApplyConfiguration; DestroyConfiguration; DisplayRoundtrip],
   fs1).

(** [wl_list_empty (&entries)] in [apply_restore]: [entries.next == &entries]
    on the copy of the list head.  [entries.next] is the first node or, for
    a list without nodes, the head in the frame of [load_state]; it is never
    the copy. *)
Definition wl_list_empty_copy (entries : list restore_entry) : bool := false.

(** The mode the body of the loop of [apply_restore] finds for a head when
    both of its lookups are followed to their result: the first entry of the
    head's name, and the first mode of the head with the numbers of that
    entry. *)
Definition restore_target (entries : list restore_entry) (head : head_info)
  : option mode_info :=
  match head_name head with
  | None => None
  | Some name =>
      match find_restore_entry entries name with
      | None => None
      | Some entry =>
          find_mode head (entry_width entry) (entry_height entry)
                    (entry_refresh entry)
      end
  end.

(** The loop of [apply_restore] over the heads, on the copy of the list
    head.  The result is the requests issued and whether the loop ran to its
    end.  [find_restore_entry] returns on the first node of the wanted name;
    when no node has it, the walk passes the last node into the frame of
    [load_state]: the loop is not followed further. *)
Fixpoint restore_loop (entries : list restore_entry) (heads : list head_info)
  : list effect * bool :=
  match heads with
  | [] => ([], true)
  | head :: rest =>
      match head_name head with
      | None => restore_loop entries rest
      | Some name =>
          match find_restore_entry entries name with
          | None => ([], false)
          | Some entry =>
              match find_mode head (entry_width entry) (entry_height entry)
                              (entry_refresh entry) with
              | None => restore_loop entries rest
              | Some mode =>
                  let '(sent, completed) := restore_loop entries rest in
                  (EnableHead (head_obj head)
                     :: SetMode (head_obj head) (mode_obj mode) :: sent,
                   completed)
              end
          end
      end
  end.

(** The loop over [argv] in [main]; [None] is the usage error. *)
Fixpoint parse_args (args : list string) (do_fullscreen do_restore : bool)
    (state_file : option string) : option (bool * bool * option string) :=
  match args with
  | [] => Some (do_fullscreen, do_restore, state_file)
  | a :: rest =>
      if String.eqb a "--fullscreen" then
        parse_args rest true do_restore state_file
      else if String.eqb a "--restore" then
        parse_args rest do_fullscreen true state_file
      else if String.eqb a "--state-file" then
        match rest with
        | [] => None
        | path :: rest' => parse_args rest' do_fullscreen do_restore (Some path)
        end
      else None
  end.

(** What the compositor and the system answer during one run.  Each element
    of [env_rounds] is one [wl_display_roundtrip] of the discovery loop:
    [None] when it returns a negative value, otherwise the events it
    dispatches. *)
Record environment := {
  env_connect : bool;
  env_globals : list (Z * string * Z);
  env_rounds : list (option (list event));
  env_fs : filesystem
}.

Definition initial_state : client_state :=
  {| cs_manager := None; cs_serial := 0; cs_done := false; cs_heads := [] |}.

(** [while (!state.done) { if (wl_display_roundtrip (...) < 0) return 1; }],
    with what the loop sends and prints.  [None]: the rounds given do not
    end the loop; a state [None]: a round trip failed. *)
Fixpoint discovery_loop (rounds : list (option (list event)))
    (state : client_state) {struct rounds}
  : option (list effect * option client_state) :=
  if cs_done state then Some ([], Some state)
  else match rounds with
       | [] => None
       | None :: _ => Some ([DisplayRoundtrip; Stderr MsgRoundtripFailed], None)
       | Some evs :: rest =>
           match discovery_loop rest (handle_events state evs) with
           | Some (effects, result) => Some (DisplayRoundtrip :: effects, result)
           | None => None
           end
       end.

(** One admissible choice for what [%d] stores on overflow: the low 32 bits
    of the number read. *)
Definition truncating_overflow (v : Z) : Z := v.

(** A value the C standard leaves undefined is a parameter of the model:
    what [%d] stores when the digits read do not fit an [int]. *)
Section Client.

Variable scanf_overflow : Z -> Z.

#[local] Set Default Proof Using "Type".

Definition scanned_int (v : Z) : Z :=
  if in_int32 v then v else sint32 (scanf_overflow v).

(** [%d]: optional sign, then decimal digits; [None] when no digit follows
    (a matching failure, or an input failure at end of file; both end the
    call without a conversion). *)
Definition conv_d (s : list ascii) : option (Z * list ascii) :=
  let s0 := skip_ws s in
  let '(neg, s1) :=
    match s0 with
    | c :: t => if Ascii.eqb c MINUS then (true, t)
                else if Ascii.eqb c PLUS then (false, t)
                else (false, s0)
    | [] => (false, [])
    end in
  match s1 with
  | d :: _ =>
      if isdigit d then
        let '(v, rest) := scan_digits 0 s1 in
        Some (scanned_int (if neg then - v else v), rest)
      else None
  | [] => None
  end.

(** One call [fscanf (fp, "%255s %d %d %d", name, &width, &height, &refresh)]
    on the unread part of the file. *)
Inductive scan_outcome :=
| ScanFour (name : list ascii) (width height refresh : Z) (rest : list ascii)
| ScanShort (ret : Z).

Definition fscanf_return (o : scan_outcome) : Z :=
  match o with
  | ScanFour _ _ _ _ _ => 4
  | ScanShort ret => ret
  end.

Definition fscanf_entry (s : list ascii) : scan_outcome :=
  match conv_s 255 s with
  | None => ScanShort (-1)
  | Some (name, s1) =>
      match conv_d (skip_ws s1) with
      | None => ScanShort 1
      | Some (width, s2) =>
          match conv_d (skip_ws s2) with
          | None => ScanShort 2
          | Some (height, s3) =>
              match conv_d (skip_ws s3) with
              | None => ScanShort 3
              | Some (refresh, s4) => ScanFour name width height refresh s4
              end
          end
      end
  end.

(** The loop of [load_state]: every entry is linked at the front of
    [entries].  [None] only when [fuel] iterations were not enough. *)
Fixpoint load_loop (fuel : nat) (s : list ascii) (entries : list restore_entry)
  : option (list restore_entry) :=
  match fuel with
  | O => None
  | S f =>
      match fscanf_entry s with
      | ScanFour name width height refresh rest =>
          let entry := {| entry_name := strdup name; entry_width := width;
                          entry_height := height; entry_refresh := refresh |} in
          load_loop f rest (entry :: entries)
      | ScanShort _ => Some entries
      end
  end.

(** Every iteration consumes input, so [S (length s)] iterations suffice
    (lemmas [load_loop_total] and [load_loop_fuel]). *)
Definition load_from (s : list ascii) (entries : list restore_entry)
  : option (list restore_entry) :=
  load_loop (S (List.length s)) s entries.

Definition load_entries (s : list ascii) : list restore_entry :=
  match load_from s [] with
  | Some entries => entries
  | None => []
  end.

Definition load_state (path : string) (fs : filesystem) : list restore_entry :=
  match fs_content fs path with
  | None => []
  | Some data => load_entries data
  end.

(** [apply_restore].  After the round trip, [free_restore_entries] walks
    the copy of the list head with [wl_list_for_each_safe]: [wl_list_remove]
    of the first node writes to the head in the frame of [load_state], and
    the walk, which stops on no node, passes the last one (with no node at
    all it starts in that frame).  So the call never reaches [return 0]. *)
Definition apply_restore (state : client_state) (state_file : option string)
    (fs : filesystem) : status * list effect * filesystem :=
  match state_file with
  | None => (Exit 1, [Stderr MsgRestoreNeedsStateFile], fs)
  | Some path =>
      let entries := load_state path fs in
      if wl_list_empty_copy entries
      then (Exit 1, [Stderr (MsgNoEntries path)], fs)
      else
        let '(sent, completed) := restore_loop entries (cs_heads state) in
        if completed
        then (Undefined,
              CreateConfiguration (cs_serial state)
                :: sent
                ++ [ApplyConfiguration; DestroyConfiguration;
                    DisplayRoundtrip],
              fs)
        else (Undefined, CreateConfiguration (cs_serial state) :: sent, fs)
  end.

(** [main]; [argv] includes the program name.  [None]: the discovery loop
    is still waiting after the rounds of the environment. *)
Definition main (argv : list string) (env : environment)
  : option (status * list effect * filesystem) :=
  let fs := env_fs env in
  match parse_args (tl argv) false false None with
  | None => Some (Exit 1, [Stderr MsgUsage], fs)
  | Some (do_fullscreen, do_restore, state_file) =>
      if Bool.eqb do_fullscreen do_restore
      then Some (Exit 1, [Stderr MsgUsage], fs)
      else if negb (env_connect env)
      then Some (Exit 1, [Stderr MsgConnectFailed], fs)
      else
        let state :=
          fold_left (fun st '(name, interface, version) =>
                       registry_handle_global st name interface version)
                    (env_globals env) initial_state in
        match cs_manager state with
        | None => Some (Exit 1, [DisplayRoundtrip; Stderr MsgNoManager], fs)
        | Some _ =>
            match discovery_loop (env_rounds env) state with
            | None => None
            | Some (waited, None) =>
                Some (Exit 1, DisplayRoundtrip :: waited, fs)
            | Some (waited, Some state') =>
                let '(result, effects, fs') :=
                  if do_fullscreen
                  then let '(code, effects, fs') :=
                         apply_fullscreen state' state_file fs in
                       (Exit code, effects, fs')
                  else apply_restore state' state_file fs in
                Some (result, DisplayRoundtrip :: waited ++ effects, fs')
            end
        end
  end.


(* ------------------------------------------------------------------ *)
(** ** Notions the statements use *)

(** The actions the body of either apply loop issues for a head, given the
    mode found for it. *)
Definition head_actions (target : head_info -> option mode_info)
    (head : head_info) : list effect :=
  match target head with
  | Some mode => [EnableHead (head_obj head);
                  SetMode (head_obj head) (mode_obj mode)]
  | None => []
  end.

(** The bytes of a C string: none of them is NUL. *)
Definition is_cstring (s : list ascii) : Prop :=
  Forall (fun c => c <> NUL) s.

(** A name that [%255s] reads back whole: not empty, free of white space,
    at most 255 bytes. *)
Definition plain_name (name : cstring) : Prop :=
  name <> [] /\ (List.length name <= 255)%nat
  /\ Forall (fun c => isspace c = false) name.

Definition entry_well_formed (e : restore_entry) : Prop :=
  is_cstring (entry_name e) /\ plain_name (entry_name e)
  /\ int32_range (entry_width e) /\ int32_range (entry_height e)
  /\ int32_range (entry_refresh e).

(** The line of the state file for an entry, and the file for a list of
    entries, first entry first. *)
Definition entry_line (e : restore_entry) : list ascii :=
  format_entry (entry_name e) (entry_width e) (entry_height e)
               (entry_refresh e).

Definition entries_text (es : list restore_entry) : list ascii :=
  flat_map entry_line es.

(** The entry [save_state] writes a line for, if it writes one. *)
Definition head_entry (head : head_info) : list restore_entry :=
  match head_name head, current_mode head with
  | Some name, Some cur =>
      [{| entry_name := name; entry_width := mode_width cur;
          entry_height := mode_height cur; entry_refresh := mode_refresh cur |}]
  | _, _ => []
  end.

(** The fields a record cut short still has, as [fprintf] writes them. *)
Definition fields_text (ints : list Z) : list ascii :=
  flat_map (fun z => SP :: print_int z) ints.

(** Where a number or a word read by [fscanf] ends: at the end of the file
    or before a character that cannot continue it. *)
Definition ends_number (rest : list ascii) : Prop :=
  match rest with
  | [] => True
  | c :: _ => isdigit c = false
  end.

Definition ends_word (rest : list ascii) : Prop :=
  match rest with
  | [] => True
  | c :: _ => isspace c = true
  end.

(** Text of which [%d] converts nothing: after white space comes the end of
    the file, or a character that is neither a digit nor a sign, or a sign
    without a digit behind it. *)
Definition no_number (s : list ascii) : Prop :=
  match skip_ws s with
  | [] => True
  | c :: t =>
      if Ascii.eqb c MINUS || Ascii.eqb c PLUS
      then match t with
           | [] => True
           | d :: _ => isdigit d = false
           end
      else isdigit c = false
  end.

(** What holds of every head of a registry built by the handlers: its name
    is a C string, [current] points into its own mode list, and the fields
    of its modes are [int32_t] values. *)
Definition head_sound (h : head_info) : Prop :=
  (forall name, head_name h = Some name -> is_cstring name)
  /\ (forall o, head_current h = Some o -> In o (map mode_obj (head_modes h)))
  /\ Forall mode_fields_int32 (head_modes h).

(** The integer arguments of an event are [int32_t] values. *)
Definition event_in_range (ev : event) : Prop :=
  match ev with
  | EvModeSize _ width height => int32_range width /\ int32_range height
  | EvModeRefresh _ refresh => int32_range refresh
  | _ => True
  end.

(* ------------------------------------------------------------------ *)
(** ** Example data *)

Definition text (s : string) : list ascii := list_ascii_of_string s.

Definition mk_mode (obj width height refresh : Z) (preferred : bool)
  : mode_info :=
  {| mode_obj := obj; mode_width := width; mode_height := height;
     mode_refresh := refresh; mode_preferred := preferred |}.

Definition mk_head (obj : Z) (name : option cstring) (current : option Z)
    (modes : list mode_info) : head_info :=
  {| head_obj := obj; head_name := name; head_enabled := true;
     head_current := current; head_modes := modes |}.

Definition mode_1080 := mk_mode 11 1920 1080 60 false.
Definition mode_720_preferred := mk_mode 12 1280 720 60 true.
Definition mode_1080_preferred := mk_mode 11 1920 1080 60 true.
Definition mode_2160 := mk_mode 13 3840 2160 60 false.
Definition mode_1440 := mk_mode 14 2560 1440 60 false.

(** A mode the compositor announced with a negative width. *)
Definition mode_negative := mk_mode 15 (-1) 1 60 false.

Definition head_one_preferred :=
  mk_head 1 (Some (text "eDP-1")) None [mode_1080; mode_720_preferred].
Definition head_two_preferred :=
  mk_head 1 (Some (text "eDP-1")) None [mode_1080_preferred; mode_720_preferred].
Definition head_sizes :=
  mk_head 1 (Some (text "eDP-1")) None [mode_1080; mode_2160; mode_1440].
(** The compositor announces a head with that mode only. *)
Definition events_negative_mode : list event :=
  [EvManagerHead 1; EvHeadMode 1 15; EvModeSize 15 (-1) 1; EvModeRefresh 15 60].

Definition state_negative_mode : client_state :=
  handle_events initial_state events_negative_mode.

Definition read_only_fs : filesystem :=
  {| fs_content := fun _ => None; fs_writable := fun _ => false |}.

Definition empty_fs : filesystem :=
  {| fs_content := fun _ => None; fs_writable := fun _ => true |}.

(** One head with its modes, nothing announced as current. *)
Definition state_one_head : client_state :=
  {| cs_manager := Some (1, 4); cs_serial := 7; cs_done := true;
     cs_heads := [head_one_preferred] |}.

(** Two heads; the second has no mode at all. *)
Definition state_two_heads : client_state :=
  {| cs_manager := Some (1, 4); cs_serial := 7; cs_done := true;
     cs_heads := [head_one_preferred; mk_head 2 (Some (text "HDMI-1")) None []] |}.

(** The compositor advertises the manager, announces one head with one
    mode, and then the manager finishes without ever sending [done]. *)
Definition env_manager_finished : environment :=
  {| env_connect := true;
     env_globals := [(1, output_manager_interface, 4)];
     env_rounds := [Some [EvManagerHead 1; EvHeadMode 1 11;
                          EvModeSize 11 1920 1080; EvManagerFinished]];
     env_fs := empty_fs |}.

Definition mk_entry (name : string) (width height refresh : Z)
  : restore_entry :=
  {| entry_name := text name; entry_width := width; entry_height := height;
     entry_refresh := refresh |}.

Definition state_file_path : string := "/tmp/outputs.state".

Definition fs_with (data : list ascii) : filesystem :=
  write_file empty_fs state_file_path data.

(** The events that announce one head, named [name], driven at
    1920x1080@60. *)
Definition events_one_output (name : list ascii) : list event :=
  [EvManagerHead 1; EvHeadName 1 name; EvHeadEnabled 1 1;
   EvHeadMode 1 11; EvModeSize 11 1920 1080; EvModeRefresh 11 60;
   EvHeadMode 1 12; EvModeSize 12 1280 720; EvModeRefresh 12 60;
   EvHeadCurrentMode 1 11; EvManagerDone 7].

(** [eDP-1] driven at 1920x1080@60. *)
Definition state_edp : client_state :=
  handle_events initial_state (events_one_output (text "eDP-1")).

(** A head the compositor named with the empty string. *)
Definition state_empty_name : client_state :=
  handle_events initial_state (events_one_output []).

Definition LF : string := String NL EmptyString.

(** Two records for the same name. *)
Definition text_two_records : list ascii :=
  text ("eDP-1 1920 1080 60" ++ LF ++ "eDP-1 1280 720 60" ++ LF).

(** A record followed by a line that lacks the fourth field. *)
Definition text_trailing_partial : list ascii :=
  text ("eDP-1 1920 1080 60" ++ LF ++ "HDMI-1 1920 1080").

(* ------------------------------------------------------------------ *)
(** ** Notions of the further properties *)

(** What the locals [preferred], [largest], [largest_area] of
    [select_fullscreen_mode] hold after the loop has visited [seen]. *)
Definition select_inv (seen : list mode_info)
    (acc : option mode_info * option mode_info * Z) : Prop :=
  let '(preferred, largest, largest_area) := acc in
  match preferred with
  | None => Forall (fun e => mode_preferred e = false) seen
  | Some p => In p seen /\ mode_preferred p = true
  end
  /\ Forall (fun e => mode_area e <= largest_area) seen
  /\ match largest with
     | None => largest_area = -1
     | Some g => In g seen /\ largest_area = mode_area g /\ 0 <= largest_area
     end.

(** The heads a sequence of events announces, in the order of the events. *)
Definition announced_heads (evs : list event) : list object_id :=
  flat_map (fun ev => match ev with
                      | EvManagerHead head => [head]
                      | _ => []
                      end) evs.

(** A head after some events, compared with the same head before: the same
    object, and the modes it had are still listed, behind the new ones. *)
Definition head_kept (before after : head_info) : Prop :=
  head_obj after = head_obj before
  /\ exists fresh,
       map mode_obj (head_modes after)
       = fresh ++ map mode_obj (head_modes before).

(** The serial a sequence of events leaves, given the one held before: the
    one of the last [done] event. *)
Definition last_serial (evs : list event) (serial : Z) : Z :=
  fold_left (fun s ev => match ev with
                         | EvManagerDone s' => s'
                         | _ => s
                         end) evs serial.

Definition settles (ev : event) : bool :=
  match ev with
  | EvManagerDone _ | EvManagerFinished => true
  | _ => false
  end.

(** The options of the command line, and the arguments that spell them. *)
Inductive cli_option :=
| OptFullscreen
| OptRestore
| OptStateFile (path : string).

Definition option_args (o : cli_option) : list string :=
  match o with
  | OptFullscreen => ["--fullscreen"%string]
  | OptRestore => ["--restore"%string]
  | OptStateFile path => ["--state-file"%string; path]
  end.

Definition set_option (acc : bool * bool * option string) (o : cli_option)
  : bool * bool * option string :=
  let '(do_fullscreen, do_restore, state_file) := acc in
  match o with
  | OptFullscreen => (true, do_restore, state_file)
  | OptRestore => (do_fullscreen, true, state_file)
  | OptStateFile path => (do_fullscreen, do_restore, Some path)
  end.

(** Width, height and refresh of a mode. *)
Definition mode_triple (m : mode_info) : Z * Z * Z :=
  (mode_width m, mode_height m, mode_refresh m).

(** The state after the registry round trip of [main]. *)
Definition bind_globals (globals : list (Z * string * Z)) : client_state :=
  fold_left (fun st '(name, interface, version) =>
               registry_handle_global st name interface version)
            globals initial_state.

(** Effects that are a request on a configuration. *)
Definition is_configuration_request (e : effect) : bool :=
  match e with
  | Stderr _ | DisplayRoundtrip => false
  | _ => true
  end.

(** The head of [state_edp]. *)
Definition head_edp : head_info :=
  mk_head 1 (Some (text "eDP-1")) (Some 11)
          [mk_mode 12 1280 720 60 false; mode_1080].

(** A compositor that advertises the manager and describes [eDP-1] in one
    round trip; every file can be written. *)
Definition env_edp : environment :=
  {| env_connect := true;
     env_globals := [(5, "wl_compositor"%string, 6);
                     (1, output_manager_interface, 5)];
     env_rounds := [Some (events_one_output (text "eDP-1")); Some []];
     env_fs := empty_fs |}.

Definition argv_fullscreen_save : list string :=
  ["client"; "--fullscreen"; "--state-file"; state_file_path]%string.

(** Every named head of [heads] has an entry of its name in [entries]: each
    lookup the loop of [apply_restore] makes for these heads stops on a
    node. *)
Definition all_recorded (entries : list restore_entry)
    (heads : list head_info) : Prop :=
  forall head name,
    In head heads -> head_name head = Some name ->
    find_restore_entry entries name <> None.

(** What [apply_restore] sends after its loop has run to the end. *)
Definition submit_requests : list effect :=
  [ApplyConfiguration; DestroyConfiguration; DisplayRoundtrip].

(** A second output, announced after [eDP-1], so listed before it. *)
Definition head_hdmi : head_info :=
  mk_head 2 (Some (text "HDMI-1")) (Some 21) [mk_mode 21 2560 1440 60 false].

Definition state_hdmi_edp : client_state :=
  {| cs_manager := Some (1, 4); cs_serial := 7; cs_done := true;
     cs_heads := [head_hdmi; head_edp] |}.

(** A state file with one record, for [eDP-1]. *)
Definition fs_edp_record : filesystem :=
  fs_with (entries_text [mk_entry "eDP-1" 1920 1080 60]).

(** A record with a letter glued to its fourth field, after a well-formed
    one. *)
Definition text_trailing_glued : list ascii :=
  entries_text [mk_entry "eDP-1" 1920 1080 60]
  ++ text "HDMI-1 1920 1080 60x".



(* ------------------------------------------------------------------ *)
(** ** Mode selection: properties *)

Lemma sint64_small (z : Z) :
  -9223372036854775808 <= z <= 9223372036854775807 -> sint64 z = z.
Proof.
  intros H. unfold sint64.
  rewrite Z.mod_small by lia. lia.
Qed.

(** The product of two [int32_t] fits [int64_t]. *)
Lemma mode_area_exact (m : mode_info) :
  mode_fields_int32 m -> mode_area m = mode_width m * mode_height m.
Proof.
  intros (Hw & Hh & _). unfold mode_area, int32_range in *.
  apply sint64_small. nia.
Qed.

Lemma select_step_preferred p l a m :
  fst (fst (select_step (p, l, a) m))
  = if mode_preferred m then Some m else p.
Proof.
  unfold select_step. destruct (mode_area m >? a); reflexivity.
Qed.

(** Entries that are not flagged leave the local [preferred] alone. *)
Lemma fold_select_not_preferred ms :
  Forall (fun e => mode_preferred e = false) ms ->
  forall p l a, fst (fst (fold_left select_step ms (p, l, a))) = p.
Proof.
  induction 1 as [|m ms Hm _ IH]; intros p l a; [reflexivity|].
  cbn [fold_left].
  destruct (select_step (p, l, a) m) as [[p' l'] a'] eqn:E.
  rewrite IH.
  pose proof (select_step_preferred p l a m) as Hp.
  rewrite E, Hm in Hp. exact Hp.
Qed.

(** Entries whose area does not exceed [largest_area] leave [largest] and
    [largest_area] alone. *)
Lemma fold_select_not_larger ms :
  forall p l a,
  Forall (fun e => mode_area e <= a) ms ->
  exists p', fold_left select_step ms (p, l, a) = (p', l, a).
Proof.
  induction ms as [|m ms IH]; intros p l a H.
  - exists p. reflexivity.
  - inversion H as [|? ? Hm Hms]; subst. simpl.
    destruct (Z.gtb_spec (mode_area m) a) as [Hgt|Hle]; [lia|].
    apply IH. exact Hms.
Qed.

(** Entries of area below [b] keep [largest_area] below [b]. *)
Lemma fold_select_below ms b :
  forall p l a,
  Forall (fun e => mode_area e < b) ms -> a < b ->
  exists p' l' a', fold_left select_step ms (p, l, a) = (p', l', a') /\ a' < b.
Proof.
  induction ms as [|m ms IH]; intros p l a H Ha.
  - exists p, l, a. split; [reflexivity|exact Ha].
  - inversion H as [|? ? Hm Hms]; subst. simpl.
    destruct (mode_area m >? a); apply IH; assumption.
Qed.

(** The first entry of maximal area, when that area is not negative, ends
    up in [largest]. *)
Lemma fold_select_largest l1 m l2 :
  0 <= mode_area m ->
  Forall (fun e => mode_area e < mode_area m) l1 ->
  Forall (fun e => mode_area e <= mode_area m) l2 ->
  exists p a,
    fold_left select_step (l1 ++ m :: l2) (None, None, -1) = (p, Some m, a).
Proof.
  intros H0 H1 H2. rewrite fold_left_app. simpl.
  destruct (fold_select_below l1 (mode_area m) None None (-1) H1)
    as (p1 & l1' & a1 & E1 & Ha1); [lia|].
  rewrite E1. simpl.
  destruct (Z.gtb_spec (mode_area m) a1) as [_|Hle]; [|lia].
  destruct (fold_select_not_larger l2
              (if mode_preferred m then Some m else p1) (Some m) (mode_area m) H2)
    as (p2 & E2).
  rewrite E2. eauto.
Qed.

(** The last flagged entry of the enumeration ends up in [preferred]. *)
Lemma select_last_preferred head l1 m l2 :
  head_modes head = l1 ++ m :: l2 ->
  mode_preferred m = true ->
  Forall (fun e => mode_preferred e = false) l2 ->
  select_fullscreen_mode head = Some m.
Proof.
  intros Hm Hp Hl2. unfold select_fullscreen_mode.
  rewrite Hm, fold_left_app. cbn [fold_left].
  destruct (fold_left select_step l1 (None, None, -1)) as [[p1 g1] a1].
  pose proof (select_step_preferred p1 g1 a1 m) as Hs. rewrite Hp in Hs.
  destruct (select_step (p1, g1, a1) m) as [[p2 g2] a2]. simpl in Hs. subst p2.
  pose proof (fold_select_not_preferred l2 Hl2 (Some m) g2 a2) as Hf.
  destruct (fold_left select_step l2 (Some m, g2, a2)) as [[p3 g3] a3].
  simpl in Hf. subst p3. reflexivity.
Qed.

(** C2, as the code has it: the flagged mode when exactly one mode is
    flagged, whatever the areas; with no flagged mode, the first mode of
    maximal width*height in enumeration order provided that area is not
    negative; none when no mode is flagged and every area is negative, and
    none for a head without modes. *)
Theorem C2_select_fullscreen_mode (head : head_info) :
  Forall mode_fields_int32 (head_modes head) ->
  (forall l1 m l2,
      head_modes head = l1 ++ m :: l2 ->
      mode_preferred m = true ->
      Forall (fun e => mode_preferred e = false) (l1 ++ l2) ->
      select_fullscreen_mode head = Some m)
  /\ (forall l1 m l2,
      Forall (fun e => mode_preferred e = false) (head_modes head) ->
      head_modes head = l1 ++ m :: l2 ->
      0 <= mode_width m * mode_height m ->
      Forall (fun e => mode_width e * mode_height e
                       < mode_width m * mode_height m) l1 ->
      Forall (fun e => mode_width e * mode_height e
                       <= mode_width m * mode_height m) l2 ->
      select_fullscreen_mode head = Some m)
  /\ (Forall (fun e => mode_preferred e = false) (head_modes head) ->
      Forall (fun e => mode_width e * mode_height e < 0) (head_modes head) ->
      select_fullscreen_mode head = None)
  /\ (head_modes head = [] -> select_fullscreen_mode head = None).
Proof.
  intros Hwf. repeat split.
  - intros l1 m l2 Hm Hp Hnp.
    apply (select_last_preferred head l1 m l2 Hm Hp).
    apply Forall_app in Hnp. tauto.
  - intros l1 m l2 Hnp Hm H0 H1 H2.
    rewrite Hm in Hwf.
    apply Forall_app in Hwf. destruct Hwf as [Hwf1 Hwf2].
    inversion Hwf2 as [|? ? Hwm Hwf2']; subst.
    assert (A0 : 0 <= mode_area m) by (rewrite mode_area_exact; assumption).
    assert (A1 : Forall (fun e => mode_area e < mode_area m) l1).
    { rewrite Forall_forall in *. intros e He.
      rewrite !mode_area_exact by auto. auto. }
    assert (A2 : Forall (fun e => mode_area e <= mode_area m) l2).
    { rewrite Forall_forall in *. intros e He.
      rewrite !mode_area_exact by auto. auto. }
    destruct (fold_select_largest l1 m l2 A0 A1 A2) as (p & a & E).
    unfold select_fullscreen_mode.
    pose proof (fold_select_not_preferred _ Hnp None None (-1)) as Hf.
    rewrite Hm in Hf |- *. rewrite E in Hf |- *. simpl in Hf. subst p.
    reflexivity.
  - intros Hnp Hneg.
    assert (A : Forall (fun e => mode_area e <= -1) (head_modes head)).
    { rewrite Forall_forall in *. intros e He.
      rewrite mode_area_exact by auto. specialize (Hneg e He). simpl in Hneg. lia. }
    destruct (fold_select_not_larger _ None None (-1) A) as (p & E).
    pose proof (fold_select_not_preferred _ Hnp None None (-1)) as Hf.
    unfold select_fullscreen_mode. rewrite E in Hf |- *. simpl in Hf. subst p.
    reflexivity.
  - intros Hnil. unfold select_fullscreen_mode. rewrite Hnil. reflexivity.
Qed.

(** C3, as the code has it: whenever a flagged mode is followed in the
    enumeration only by modes that are not flagged (it is the last flagged
    one), [select_fullscreen_mode] returns it, however many flagged modes
    come before it. *)
Theorem C3_select_last_preferred (head : head_info) l1 m l2 :
  head_modes head = l1 ++ m :: l2 ->
  mode_preferred m = true ->
  Forall (fun e => mode_preferred e = false) l2 ->
  select_fullscreen_mode head = Some m.
Proof.
  exact (select_last_preferred head l1 m l2).
Qed.

(* ------------------------------------------------------------------ *)
(** ** Registry events: properties *)

Lemma set_heads_same (state : client_state) :
  set_heads state (cs_heads state) = state.
Proof. destruct state; reflexivity. Qed.

(** A handler that leaves every addressed head as it is leaves the list. *)
Lemma with_head_fixed (o : object_id) (f : head_info -> head_info) heads :
  (forall info, In info heads -> head_obj info = o -> f info = info) ->
  with_head o f heads = heads.
Proof.
  induction heads as [|h t IH]; intros Hf; [reflexivity|].
  simpl. destruct (Z.eqb_spec (head_obj h) o) as [E|_].
  - rewrite (Hf h (or_introl eq_refl) E). reflexivity.
  - rewrite IH; [reflexivity|]. intros info Hin. apply Hf. right. exact Hin.
Qed.

Lemma find_none_by_obj (mode : object_id) modes :
  (forall e, In e modes -> mode_obj e <> mode) ->
  find (fun entry => mode_obj entry =? mode) modes = None.
Proof.
  induction modes as [|m t IH]; intros H; [reflexivity|].
  simpl. destruct (Z.eqb_spec (mode_obj m) mode) as [E|_].
  - exfalso. exact (H m (or_introl eq_refl) E).
  - apply IH. intros e He. apply H. right. exact He.
Qed.

(** C10: a current-mode event whose mode matches no entry of the head's
    mode list leaves the head as it was, [current] included, and so leaves
    the whole registry as it was; and whatever the mode, the event changes
    no field of the head but [current]. *)
Theorem C10_current_mode_without_match :
  (forall info mode,
      (forall e, In e (head_modes info) -> mode_obj e <> mode) ->
      head_handle_current_mode info mode = info)
  /\ (forall state head mode,
      (forall info, In info (cs_heads state) -> head_obj info = head ->
         forall e, In e (head_modes info) -> mode_obj e <> mode) ->
      handle_event state (EvHeadCurrentMode head mode) = state)
  /\ (forall info mode,
      head_obj (head_handle_current_mode info mode) = head_obj info
      /\ head_name (head_handle_current_mode info mode) = head_name info
      /\ head_enabled (head_handle_current_mode info mode) = head_enabled info
      /\ head_modes (head_handle_current_mode info mode) = head_modes info).
Proof.
  assert (A : forall info mode,
             (forall e, In e (head_modes info) -> mode_obj e <> mode) ->
             head_handle_current_mode info mode = info).
  { intros info mode H. unfold head_handle_current_mode.
    rewrite (find_none_by_obj mode _ H). reflexivity. }
  split; [exact A|]. split.
  - intros state head mode H. simpl.
    rewrite with_head_fixed; [apply set_heads_same|].
    intros info Hin Hobj. apply A. exact (H info Hin Hobj).
  - intros info mode. unfold head_handle_current_mode.
    destruct (find _ (head_modes info)); repeat split; reflexivity.
Qed.

(** C6, as the code has it: the handler of the head's [finished] event
    does nothing, so the event leaves the registry as it was: the head and
    all its modes stay in it. *)
Theorem C6_head_finished_keeps_registry (state : client_state)
    (head : object_id) :
  handle_event state (EvHeadFinished head) = state.
Proof.
  simpl. rewrite with_head_fixed; [apply set_heads_same|].
  intros info _ _. reflexivity.
Qed.

(* ------------------------------------------------------------------ *)
(** ** Apply: properties *)

Lemma fullscreen_loop_actions heads :
  fullscreen_loop heads = flat_map (head_actions select_fullscreen_mode) heads.
Proof.
  induction heads as [|h t IH]; [reflexivity|].
  simpl. unfold head_actions at 1.
  destruct (select_fullscreen_mode h); simpl; rewrite IH; reflexivity.
Qed.

(** Every request the loop of [apply_restore] issues is an action for a
    head whose two lookups both found something. *)
Lemma restore_loop_sent entries heads e :
  In e (fst (restore_loop entries heads)) ->
  In e (flat_map (head_actions (restore_target entries)) heads).
Proof.
  induction heads as [|h t IH]; [intros []|].
  cbn [restore_loop flat_map]. unfold head_actions at 1, restore_target.
  destruct (head_name h) as [name|]; [|exact IH].
  destruct (find_restore_entry entries name) as [entry|]; [|intros []].
  destruct (find_mode h _ _ _) as [mode|]; [|exact IH].
  destruct (restore_loop entries t) as [sent completed].
  cbn [fst] in *. intros [<-|[<-|Hin]].
  - left. reflexivity.
  - right. left. reflexivity.
  - right. right. apply IH. exact Hin.
Qed.



(** At the first head whose name has no entry the loop is left: what was
    issued is what the heads before it gave rise to. *)
Lemma restore_loop_miss entries before head name after :
  all_recorded entries before ->
  head_name head = Some name ->
  find_restore_entry entries name = None ->
  restore_loop entries (before ++ head :: after)
  = (flat_map (head_actions (restore_target entries)) before, false).
Proof.
  unfold all_recorded. intros H En Ef.
  induction before as [|h t IH].
  - cbn [app restore_loop flat_map]. rewrite En, Ef. reflexivity.
  - assert (Ht : restore_loop entries (t ++ head :: after)
                 = (flat_map (head_actions (restore_target entries)) t,
                    false)).
    { apply IH. intros h' n' Hin. apply H. right. exact Hin. }
    cbn [app restore_loop flat_map]. unfold head_actions at 1, restore_target.
    destruct (head_name h) as [n|] eqn:Enh; [|exact Ht].
    destruct (find_restore_entry entries n) as [entry|] eqn:Efh.
    + destruct (find_mode h _ _ _); [|exact Ht].
      rewrite Ht. reflexivity.
    + exfalso. exact (H h n (or_introl eq_refl) Enh Efh).
Qed.

(** What the apply functions send besides the per-head actions is about
    no head. *)
Lemma apply_fullscreen_head_effects state state_file fs e :
  effect_head e <> None ->
  (In e (snd (fst (apply_fullscreen state state_file fs)))
   <-> In e (fullscreen_loop (cs_heads state))).
Proof.
  intros He. unfold apply_fullscreen, save_state.
  destruct state_file as [path|]; [destruct (fs_writable fs path)|];
    simpl; rewrite ?in_app_iff; simpl;
    intuition (subst; simpl in *; congruence).
Qed.

(** [apply_restore] with a state file: the configuration is created, the
    loop issues its requests, and the configuration is submitted if the loop
    ran to its end; either way the call never returns a code. *)
Lemma apply_restore_effects state path fs :
  apply_restore state (Some path) fs
  = (Undefined,
     CreateConfiguration (cs_serial state)
       :: fst (restore_loop (load_state path fs) (cs_heads state))
       ++ (if snd (restore_loop (load_state path fs) (cs_heads state))
           then submit_requests else []),
     fs).
Proof.
  unfold apply_restore, wl_list_empty_copy, submit_requests.
  destruct (restore_loop (load_state path fs) (cs_heads state))
    as [sent [|]]; cbn [fst snd]; [reflexivity|].
  rewrite app_nil_r. reflexivity.
Qed.

Lemma apply_restore_head_effects state path fs e :
  effect_head e <> None ->
  (In e (snd (fst (apply_restore state (Some path) fs)))
   <-> In e (fst (restore_loop (load_state path fs) (cs_heads state)))).
Proof.
  intros He. rewrite apply_restore_effects. cbn [fst snd].
  split.
  - intros [<-|Hin]; [exfalso; apply He; reflexivity|].
    apply in_app_or in Hin. destruct Hin as [Hin|Hin]; [exact Hin|].
    exfalso. apply He.
    destruct (snd (restore_loop _ _)); [|destruct Hin].
    destruct Hin as [<-|[<-|[<-|[]]]]; reflexivity.
  - intros Hin. right. apply in_or_app. left. exact Hin.
Qed.

Section Frame.

Variable target : head_info -> option mode_info.
Variable heads : list head_info.

Lemma in_actions e :
  In e (flat_map (head_actions target) heads) ->
  exists head mode,
    In head heads /\ target head = Some mode
    /\ (e = EnableHead (head_obj head)
        \/ e = SetMode (head_obj head) (mode_obj mode)).
Proof.
  rewrite in_flat_map. intros (head & Hin & He).
  unfold head_actions in He. destruct (target head) as [mode|] eqn:T.
  - exists head, mode. simpl in He. intuition auto.
  - destruct He.
Qed.

Lemma actions_of_head head mode :
  In head heads -> target head = Some mode ->
  In (EnableHead (head_obj head)) (flat_map (head_actions target) heads)
  /\ In (SetMode (head_obj head) (mode_obj mode))
        (flat_map (head_actions target) heads).
Proof.
  intros Hin T. rewrite !in_flat_map.
  split; exists head; (split; [exact Hin|]);
    unfold head_actions; rewrite T; simpl; auto.
Qed.

Hypothesis distinct : NoDup (map head_obj heads).

Lemma same_obj_same_head h1 h2 :
  In h1 heads -> In h2 heads -> head_obj h1 = head_obj h2 -> h1 = h2.
Proof using distinct.
  revert distinct.
  induction heads as [|h t IH]; intros Hnd H1 H2 E; [destruct H1|].
  simpl in Hnd. inversion Hnd as [|? ? Hnot Hnd']; subst.
  destruct H1 as [->|H1], H2 as [->|H2]; auto.
  - exfalso. apply Hnot. rewrite E. apply in_map. exact H2.
  - exfalso. apply Hnot. rewrite <- E. apply in_map. exact H1.
Qed.

Lemma no_action_without_target head e :
  In head heads -> target head = None ->
  In e (flat_map (head_actions target) heads) ->
  effect_head e <> Some (head_obj head).
Proof using distinct.
  intros Hin T He Habout.
  destruct (in_actions e He) as (h' & mode & Hin' & T' & Hshape).
  assert (E : head_obj h' = head_obj head)
    by (destruct Hshape; subst e; simpl in Habout; congruence).
  rewrite (same_obj_same_head h' head Hin' Hin E) in T'. congruence.
Qed.

End Frame.

Lemma nodup_app_disjoint (l1 l2 : list object_id) (x : object_id) :
  NoDup (l1 ++ l2) -> In x l1 -> In x l2 -> False.
Proof.
  induction l1 as [|y t IH]; intros Hnd H1 H2; [destruct H1|].
  cbn [app] in Hnd. inversion Hnd as [|? ? Hnot Hnd']; subst.
  destruct H1 as [->|H1].
  - apply Hnot. apply in_or_app. right. exact H2.
  - exact (IH Hnd' H1 H2).
Qed.

(** A transaction whose actions are those of the heads with a target mode,
    over heads that are distinct protocol objects. *)
Lemma transaction_actions (heads : list head_info)
    (target : head_info -> option mode_info) (tx : list effect) :
  NoDup (map head_obj heads) ->
  (forall e, effect_head e <> None ->
     (In e tx <-> In e (flat_map (head_actions target) heads))) ->
  (forall head mode,
      In head heads -> target head = Some mode ->
      In (EnableHead (head_obj head)) tx
      /\ In (SetMode (head_obj head) (mode_obj mode)) tx)
  /\ (forall head e,
      In head heads -> target head = None ->
      In e tx -> effect_head e <> Some (head_obj head))
  /\ (forall head m,
      In head heads -> In (SetMode (head_obj head) m) tx ->
      exists mode, target head = Some mode /\ mode_obj mode = m)
  /\ (forall head,
      In head heads -> In (EnableHead (head_obj head)) tx ->
      exists mode, target head = Some mode)
  /\ (forall o, ~ In (DisableHead o) tx).
Proof.
  intros Hnd Htx. repeat split.
  - apply Htx; [discriminate|].
    apply (actions_of_head target _ head mode); assumption.
  - apply Htx; [discriminate|].
    apply (actions_of_head target _ head mode); assumption.
  - intros head e Hin T He Habout.
    assert (Hsome : effect_head e <> None) by congruence.
    apply Htx in He; [|exact Hsome].
    exact (no_action_without_target target _ Hnd head e Hin T He Habout).
  - intros head m Hin He.
    apply Htx in He; [|discriminate].
    destruct (in_actions target _ _ He) as (h' & mode & Hin' & T' & [E|E]);
      [discriminate|].
    injection E as E1 E2.
    rewrite <- (same_obj_same_head _ Hnd h' head Hin' Hin (eq_sym E1)).
    exists mode. split; [exact T'|symmetry; exact E2].
  - intros head Hin He.
    apply Htx in He; [|discriminate].
    destruct (in_actions target _ _ He) as (h' & mode & Hin' & T' & [E|E]);
      [|discriminate].
    injection E as E1.
    rewrite <- (same_obj_same_head _ Hnd h' head Hin' Hin (eq_sym E1)).
    exists mode. exact T'.
  - intros o He.
    apply Htx in He; [|discriminate].
    destruct (in_actions target _ _ He) as (h' & mode & _ & _ & [E|E]);
      discriminate.
Qed.


(** X21: in the transaction [apply_fullscreen] builds, over heads that are
    distinct protocol objects, a head is enabled and given a mode exactly
    when [select_fullscreen_mode] yields a mode for it, and that mode is the
    one set; about a head without such a mode the transaction holds no
    action at all, and no head is ever disabled. *)
Theorem apply_fullscreen_transaction_actions (state : client_state)
    (state_file : option string) (fs : filesystem) (tx : list effect) :
  NoDup (map head_obj (cs_heads state)) ->
  tx = snd (fst (apply_fullscreen state state_file fs)) ->
  (forall head mode,
      In head (cs_heads state) -> select_fullscreen_mode head = Some mode ->
      In (EnableHead (head_obj head)) tx
      /\ In (SetMode (head_obj head) (mode_obj mode)) tx)
  /\ (forall head e,
      In head (cs_heads state) -> select_fullscreen_mode head = None ->
      In e tx -> effect_head e <> Some (head_obj head))
  /\ (forall head m,
      In head (cs_heads state) -> In (SetMode (head_obj head) m) tx ->
      exists mode, select_fullscreen_mode head = Some mode
                   /\ mode_obj mode = m)
  /\ (forall head,
      In head (cs_heads state) -> In (EnableHead (head_obj head)) tx ->
      exists mode, select_fullscreen_mode head = Some mode)
  /\ (forall o, ~ In (DisableHead o) tx).
Proof.
  intros Hnd ->. apply transaction_actions; [exact Hnd|].
  intros e He. rewrite <- fullscreen_loop_actions.
  apply apply_fullscreen_head_effects. exact He.
Qed.


(** C1, for a restore: the loop of [apply_restore] looks every named head up
    in the entries; at the first head whose name has no record the lookup
    walks past the last entry and the run leaves defined behaviour.  Up to
    there the configuration was created and the heads listed before that
    head got their actions; the configuration was not applied, and no head
    listed after that head was enabled or given a mode, whatever the state
    file records for it.  So the transaction of a restore does not hold the
    actions of every head that has a target mode. *)
Theorem C1_restore_stops_at_missing_record (state : client_state)
    (path : string) (fs : filesystem) (before after : list head_info)
    (head : head_info) (name : cstring) :
  cs_heads state = before ++ head :: after ->
  NoDup (map head_obj (cs_heads state)) ->
  all_recorded (load_state path fs) before ->
  head_name head = Some name ->
  find_restore_entry (load_state path fs) name = None ->
  apply_restore state (Some path) fs
  = (Undefined,
     CreateConfiguration (cs_serial state)
       :: flat_map (head_actions (restore_target (load_state path fs)))
                   before,
     fs)
  /\ (forall later e,
        In later after ->
        In e (snd (fst (apply_restore state (Some path) fs))) ->
        effect_head e <> Some (head_obj later))
  /\ ~ In ApplyConfiguration (snd (fst (apply_restore state (Some path) fs))).
Proof.
  intros Hheads Hnd Hrec En Ef.
  assert (E : apply_restore state (Some path) fs
              = (Undefined,
                 CreateConfiguration (cs_serial state)
                   :: flat_map (head_actions
                                  (restore_target (load_state path fs)))
                               before,
                 fs)).
  { rewrite apply_restore_effects, Hheads.
    rewrite (restore_loop_miss _ before head name after Hrec En Ef).
    cbn [fst snd]. rewrite app_nil_r. reflexivity. }
  split; [exact E|]. rewrite E. cbn [fst snd]. split.
  - intros later e Hlater [<-|Hin] Habout; [discriminate Habout|].
    destruct (in_actions _ _ _ Hin) as (h' & mode & Hin' & _ & Hshape).
    assert (Eobj : head_obj h' = head_obj later)
      by (destruct Hshape; subst e; simpl in Habout; congruence).
    rewrite Hheads, map_app in Hnd.
    apply (nodup_app_disjoint _ _ (head_obj later) Hnd).
    + rewrite <- Eobj. apply in_map. exact Hin'.
    + right. apply in_map. exact Hlater.
  - intros [Hin|Hin]; [discriminate Hin|].
    destruct (in_actions _ _ _ Hin) as (h' & mode & _ & _ & [Ee|Ee]);
      discriminate Ee.
Qed.

(** C5, as the code has it: when the state file cannot be opened for
    writing, [save_state] prints the failure on [stderr] and returns -1;
    [apply_fullscreen] drops that result, goes on to create, fill, apply
    and destroy the configuration, and returns 0; no file is written. *)
Theorem C5_unwritable_state_file_still_applies (state : client_state)
    (path : string) (fs : filesystem) :
  fs_writable fs path = false ->
  save_state path state fs = (-1, [Stderr (MsgOpenFailed path)], fs)
  /\ apply_fullscreen state (Some path) fs
     = (0,
        Stderr (MsgOpenFailed path)
          :: CreateConfiguration (cs_serial state)
          :: fullscreen_loop (cs_heads state)
          ++ [ApplyConfiguration; DestroyConfiguration; DisplayRoundtrip],
        fs).
Proof.
  intros Hw. unfold apply_fullscreen, save_state. rewrite Hw.
  split; reflexivity.
Qed.

(** C7, as the code has it: the handler of the manager's [finished] event
    sets [done] and changes nothing else (nothing marks the manager as
    unusable); the discovery loop of [main] then ends at once, and a
    fullscreen apply operation on that state creates a configuration with
    the serial held at that moment, applies it and returns 0. *)
Theorem C7_manager_finished_then_transaction (state : client_state)
    (state_file : option string) (fs : filesystem)
    (rounds : list (option (list event))) :
  cs_done (handle_event state EvManagerFinished) = true
  /\ cs_serial (handle_event state EvManagerFinished) = cs_serial state
  /\ cs_manager (handle_event state EvManagerFinished) = cs_manager state
  /\ cs_heads (handle_event state EvManagerFinished) = cs_heads state
  /\ discovery_loop rounds (handle_event state EvManagerFinished)
     = Some ([], Some (handle_event state EvManagerFinished))
  /\ fst (fst (apply_fullscreen (handle_event state EvManagerFinished)
                                state_file fs)) = 0
  /\ In (CreateConfiguration (cs_serial state))
        (snd (fst (apply_fullscreen (handle_event state EvManagerFinished)
                                    state_file fs)))
  /\ In ApplyConfiguration
        (snd (fst (apply_fullscreen (handle_event state EvManagerFinished)
                                    state_file fs))).
Proof.
  repeat split; try reflexivity.
  - destruct rounds; reflexivity.
  - unfold apply_fullscreen.
    destruct (match state_file with
              | Some p => save_state p (handle_event state EvManagerFinished) fs
              | None => (0, [], fs) end) as [[r said] fs1].
    reflexivity.
  - unfold apply_fullscreen.
    destruct (match state_file with
              | Some p => save_state p (handle_event state EvManagerFinished) fs
              | None => (0, [], fs) end) as [[r said] fs1].
    simpl. apply in_or_app. right. left. reflexivity.
  - unfold apply_fullscreen.
    destruct (match state_file with
              | Some p => save_state p (handle_event state EvManagerFinished) fs
              | None => (0, [], fs) end) as [[r said] fs1].
    simpl. apply in_or_app. right. right. apply in_or_app. right.
    simpl. auto.
Qed.

(* ------------------------------------------------------------------ *)
(** ** The C library: properties *)

Lemma digit_char_spec (d : Z) :
  0 <= d < 10 ->
  isdigit (digit_char d) = true /\ digit_value (digit_char d) = d.
Proof.
  intros H.
  assert (E : d = 0 \/ d = 1 \/ d = 2 \/ d = 3 \/ d = 4 \/ d = 5 \/ d = 6
              \/ d = 7 \/ d = 8 \/ d = 9) by lia.
  repeat (destruct E as [->|E]; [split; reflexivity|]).
  subst d. split; reflexivity.
Qed.

(** A digit is neither white space nor a sign. *)
Lemma isdigit_plain (c : ascii) :
  isdigit c = true ->
  isspace c = false /\ Ascii.eqb c MINUS = false /\ Ascii.eqb c PLUS = false.
Proof.
  intros H. repeat split.
  - unfold isdigit, isspace in *.
    apply andb_true_iff in H. destruct H as [H1 H2].
    apply Nat.leb_le in H1. apply Nat.leb_le in H2.
    apply orb_false_iff. split.
    + apply Nat.eqb_neq. lia.
    + apply andb_false_iff. right. apply Nat.leb_gt. lia.
  - destruct (Ascii.eqb_spec c MINUS) as [->|_]; [discriminate H|reflexivity].
  - destruct (Ascii.eqb_spec c PLUS) as [->|_]; [discriminate H|reflexivity].
Qed.

Lemma print_digits_app fuel : forall n acc r,
  print_digits fuel n acc ++ r = print_digits fuel n (acc ++ r).
Proof.
  induction fuel as [|f IH]; intros n acc r; simpl; [reflexivity|].
  destruct (n <? 10); [reflexivity|]. rewrite IH. reflexivity.
Qed.

Lemma print_digits_head fuel : forall n acc,
  0 <= n ->
  exists d t, print_digits fuel n acc = d :: t /\ isdigit d = true.
Proof.
  induction fuel as [|f IH]; intros n acc Hn; simpl.
  - eexists _, _. split; [reflexivity|].
    apply digit_char_spec. apply Z.mod_pos_bound. lia.
  - destruct (n <? 10).
    + eexists _, _. split; [reflexivity|].
      apply digit_char_spec. apply Z.mod_pos_bound. lia.
    + apply IH. apply Z.div_pos; lia.
Qed.

Lemma scan_digits_digit v d rest :
  0 <= d < 10 ->
  scan_digits v (digit_char d :: rest) = scan_digits (10 * v + d) rest.
Proof.
  intros H. destruct (digit_char_spec d H) as [E1 E2].
  cbn [scan_digits]. rewrite E1, E2. reflexivity.
Qed.

(** Reading the digits [print_digits] wrote gives the number back. *)
Lemma scan_print_digits fuel : forall n acc v,
  0 <= n < 2 ^ (Z.of_nat fuel + 1) ->
  exists v', scan_digits v (print_digits fuel n acc) = scan_digits v' acc
             /\ (v = 0 -> v' = n).
Proof.
  induction fuel as [|f IH]; intros n acc v Hn.
  - cbn [print_digits]. change (2 ^ (Z.of_nat 0 + 1)) with 2 in Hn.
    exists (10 * v + n mod 10). split.
    + apply scan_digits_digit. apply Z.mod_pos_bound. lia.
    + intros ->. rewrite Z.mod_small by lia. lia.
  - cbn [print_digits]. destruct (Z.ltb_spec n 10) as [Hlt|Hge].
    + exists (10 * v + n mod 10). split.
      * apply scan_digits_digit. apply Z.mod_pos_bound. lia.
      * intros ->. rewrite Z.mod_small by lia. lia.
    + assert (Hdiv : 0 <= n / 10 < 2 ^ (Z.of_nat f + 1)).
      { split; [apply Z.div_pos; lia|].
        apply Z.div_lt_upper_bound; [lia|].
        replace (Z.of_nat (S f) + 1) with (Z.succ (Z.of_nat f + 1)) in Hn by lia.
        rewrite Z.pow_succ_r in Hn by lia. lia. }
      destruct (IH (n / 10) (digit_char (n mod 10) :: acc) v Hdiv)
        as (v1 & E1 & Hv1).
      exists (10 * v1 + n mod 10). split.
      * rewrite E1. apply scan_digits_digit. apply Z.mod_pos_bound. lia.
      * intros Hv. rewrite (Hv1 Hv).
        pose proof (Z.div_mod n 10 ltac:(lia)). lia.
Qed.

Lemma scan_digits_end v rest :
  ends_number rest -> scan_digits v rest = (v, rest).
Proof.
  destruct rest as [|c t]; intros H; [reflexivity|].
  simpl in H. cbn [scan_digits]. rewrite H. reflexivity.
Qed.

Lemma log2_fuel (n : Z) :
  0 <= n -> n < 2 ^ (Z.of_nat (Z.to_nat (Z.log2 n)) + 1).
Proof.
  intros Hn. rewrite Z2Nat.id by apply Z.log2_nonneg.
  destruct (Z.eq_dec n 0) as [->|Hnz]; [reflexivity|].
  apply Z.log2_spec. lia.
Qed.

Lemma scan_print_nat (n : Z) rest :
  0 <= n -> ends_number rest ->
  scan_digits 0 (print_nat n ++ rest) = (n, rest).
Proof.
  intros Hn Hrest. unfold print_nat. rewrite print_digits_app. simpl app.
  destruct (scan_print_digits (Z.to_nat (Z.log2 n)) n rest 0) as (v' & E & Hv).
  { split; [exact Hn|apply log2_fuel; exact Hn]. }
  rewrite E, (Hv eq_refl). apply scan_digits_end. exact Hrest.
Qed.

Lemma print_nat_head (n : Z) :
  0 <= n -> exists d t, print_nat n = d :: t /\ isdigit d = true.
Proof. intros Hn. apply print_digits_head. exact Hn. Qed.

(** The first character [%d] of [fprintf] writes is not white space. *)
Lemma print_int_head (z : Z) :
  exists c t, print_int z = c :: t /\ isspace c = false.
Proof.
  unfold print_int. destruct (Z.ltb_spec z 0) as [Hneg|Hpos].
  - exists MINUS, (print_nat (- z)). split; reflexivity.
  - destruct (print_nat_head z Hpos) as (d & t & E & Hd).
    exists d, t. split; [exact E|]. apply isdigit_plain. exact Hd.
Qed.

Lemma skip_ws_plain c t : isspace c = false -> skip_ws (c :: t) = c :: t.
Proof. intros H. cbn [skip_ws]. rewrite H. reflexivity. Qed.

Lemma skip_ws_space c t : isspace c = true -> skip_ws (c :: t) = skip_ws t.
Proof. intros H. cbn [skip_ws]. rewrite H. reflexivity. Qed.

Lemma skip_ws_idem s : skip_ws (skip_ws s) = skip_ws s.
Proof.
  induction s as [|c t IH]; [reflexivity|].
  cbn [skip_ws]. destruct (isspace c) eqn:E; [exact IH|].
  apply skip_ws_plain. exact E.
Qed.

Lemma skip_ws_length s : (List.length (skip_ws s) <= List.length s)%nat.
Proof.
  induction s as [|c t IH]; [reflexivity|].
  cbn [skip_ws]. destruct (isspace c); simpl in *; lia.
Qed.

Lemma scanned_int_in_range (z : Z) : int32_range z -> scanned_int z = z.
Proof.
  intros H. unfold scanned_int, in_int32, int32_range in *.
  destruct (Z.leb_spec (-2147483648) z); [|lia].
  destruct (Z.leb_spec z 2147483647); [|lia]. reflexivity.
Qed.

Lemma conv_d_skip_ws s : conv_d (skip_ws s) = conv_d s.
Proof. unfold conv_d. rewrite skip_ws_idem. reflexivity. Qed.

(** [%d] of [fscanf] reads back what [%d] of [fprintf] wrote. *)
Lemma conv_d_print_int (z : Z) rest :
  int32_range z -> ends_number rest ->
  conv_d (print_int z ++ rest) = Some (z, rest).
Proof.
  intros Hz Hrest. unfold conv_d, print_int.
  destruct (Z.ltb_spec z 0) as [Hneg|Hpos].
  - destruct (print_nat_head (- z)) as (d & t & E & Hd); [lia|].
    change ((MINUS :: print_nat (- z)) ++ rest)
      with (MINUS :: (print_nat (- z) ++ rest)).
    rewrite skip_ws_plain by reflexivity.
    change (Ascii.eqb MINUS MINUS) with true. cbv iota beta.
    pose proof (scan_print_nat (- z) rest ltac:(lia) Hrest) as Hs.
    rewrite E in Hs |- *. cbn [app] in Hs |- *. rewrite Hd, Hs.
    rewrite Z.opp_involutive, scanned_int_in_range by exact Hz. reflexivity.
  - destruct (print_nat_head z Hpos) as (d & t & E & Hd).
    destruct (isdigit_plain d Hd) as (Hsp & Hm & Hp).
    pose proof (scan_print_nat z rest Hpos Hrest) as Hs.
    rewrite E in Hs |- *. cbn [app] in Hs |- *.
    rewrite skip_ws_plain by exact Hsp. rewrite Hm, Hp. cbv iota beta.
    rewrite Hd, Hs, scanned_int_in_range by exact Hz. reflexivity.
Qed.

(** [%255s] reads a plain name whole. *)
Lemma scan_word_name (name : list ascii) : forall width rest,
  Forall (fun c => isspace c = false) name ->
  (List.length name <= width)%nat -> ends_word rest ->
  scan_word width (name ++ rest) = (name, rest).
Proof.
  induction name as [|c t IH]; intros width rest Hname Hlen Hrest.
  - simpl app. destruct width as [|w]; [destruct rest; reflexivity|].
    destruct rest as [|c t]; [reflexivity|].
    simpl in Hrest. cbn [scan_word]. rewrite Hrest. reflexivity.
  - inversion Hname as [|? ? Hc Ht]; subst.
    destruct width as [|w]; [simpl in Hlen; lia|].
    simpl app. cbn [scan_word]. rewrite Hc.
    rewrite IH; [reflexivity|exact Ht|simpl in Hlen; lia|exact Hrest].
Qed.

Lemma conv_s_name (name rest : list ascii) :
  plain_name name -> ends_word rest ->
  conv_s 255 (name ++ rest) = Some (name, rest).
Proof.
  intros (Hne & Hlen & Hplain) Hrest. unfold conv_s.
  destruct name as [|c t]; [congruence|].
  inversion Hplain as [|? ? Hc Ht]; subst.
  simpl app. rewrite skip_ws_plain by exact Hc.
  change (c :: t ++ rest) with ((c :: t) ++ rest).
  rewrite scan_word_name; [reflexivity|exact Hplain|exact Hlen|exact Hrest].
Qed.

Lemma strdup_cstring (s : list ascii) : is_cstring s -> strdup s = s.
Proof.
  induction 1 as [|c t Hc _ IH]; [reflexivity|].
  simpl. destruct (Ascii.eqb_spec c NUL) as [E|_]; [contradiction|].
  rewrite IH. reflexivity.
Qed.

Lemma strdup_is_cstring (s : list ascii) : is_cstring (strdup s).
Proof.
  induction s as [|c t IH]; simpl; [constructor|].
  destruct (Ascii.eqb_spec c NUL) as [E|N]; constructor; assumption.
Qed.

Lemma cstr_eqb_eq (a : cstring) : forall b, cstr_eqb a b = true <-> a = b.
Proof.
  induction a as [|x a IH]; intros [|y b]; simpl; split; intros H;
    try reflexivity; try discriminate.
  - apply andb_true_iff in H. destruct H as [H1 H2].
    apply Ascii.eqb_eq in H1. apply IH in H2. congruence.
  - injection H as -> ->. rewrite Ascii.eqb_refl. simpl. apply IH. reflexivity.
Qed.

(* ------------------------------------------------------------------ *)
(** ** Registries built by the handlers *)

Lemma with_head_sound o f heads :
  (forall h, head_sound h -> head_sound (f h)) ->
  Forall head_sound heads -> Forall head_sound (with_head o f heads).
Proof.
  intros Hf. induction 1 as [|h t Hh Ht IH]; simpl; [constructor|].
  destruct (head_obj h =? o); constructor; auto.
Qed.

Lemma with_mode_in_objs o f : forall modes modes',
  (forall m, mode_obj (f m) = mode_obj m) ->
  with_mode_in o f modes = Some modes' ->
  map mode_obj modes' = map mode_obj modes.
Proof.
  induction modes as [|m t IH]; intros modes' Hf E; [discriminate E|].
  simpl in E. destruct (mode_obj m =? o).
  - injection E as <-. simpl. rewrite Hf. reflexivity.
  - destruct (with_mode_in o f t) as [t'|] eqn:Et; [|discriminate E].
    injection E as <-. simpl. rewrite (IH t' Hf eq_refl). reflexivity.
Qed.

Lemma with_mode_in_range o f : forall modes modes',
  (forall m, mode_fields_int32 m -> mode_fields_int32 (f m)) ->
  with_mode_in o f modes = Some modes' ->
  Forall mode_fields_int32 modes -> Forall mode_fields_int32 modes'.
Proof.
  induction modes as [|m t IH]; intros modes' Hf E Hr; [discriminate E|].
  inversion Hr as [|? ? Hm Ht]; subst.
  simpl in E. destruct (mode_obj m =? o).
  - injection E as <-. constructor; auto.
  - destruct (with_mode_in o f t) as [t'|] eqn:Et; [|discriminate E].
    injection E as <-. constructor; [exact Hm|]. apply (IH t' Hf eq_refl Ht).
Qed.

Lemma with_mode_sound o f heads :
  (forall m, mode_obj (f m) = mode_obj m) ->
  (forall m, mode_fields_int32 m -> mode_fields_int32 (f m)) ->
  Forall head_sound heads -> Forall head_sound (with_mode o f heads).
Proof.
  intros Hobj Hrange. induction 1 as [|h t Hh Ht IH]; simpl; [constructor|].
  destruct (with_mode_in o f (head_modes h)) as [modes|] eqn:E.
  - constructor; [|exact Ht].
    destruct Hh as (Hn & Hc & Hr). unfold head_sound, set_modes. simpl.
    rewrite (with_mode_in_objs o f _ _ Hobj E).
    repeat split; [exact Hn|exact Hc|].
    exact (with_mode_in_range o f _ _ Hrange E Hr).
  - constructor; assumption.
Qed.

Lemma head_handle_current_mode_sound h mode :
  head_sound h -> head_sound (head_handle_current_mode h mode).
Proof.
  intros (Hn & Hc & Hr). unfold head_handle_current_mode.
  destruct (find _ (head_modes h)) as [entry|] eqn:E; [|repeat split; assumption].
  repeat split; simpl; [exact Hn| |exact Hr].
  intros o Ho. injection Ho as <-.
  apply find_some in E. apply in_map. apply E.
Qed.

(** Every handler keeps the registry sound. *)
Lemma handle_event_sound state ev :
  event_in_range ev ->
  Forall head_sound (cs_heads state) ->
  Forall head_sound (cs_heads (handle_event state ev)).
Proof.
  intros Hev H.
  destruct ev; simpl; try exact H.
  - constructor; [|exact H].
    repeat split; simpl; try discriminate. constructor.
  - apply with_head_sound; [|exact H].
    intros h (Hn & Hc & Hr). repeat split; simpl; [|exact Hc|exact Hr].
    intros n Hsome. injection Hsome as <-. apply strdup_is_cstring.
  - apply with_head_sound; [|exact H].
    intros h (Hn & Hc & Hr). repeat split; assumption.
  - apply with_head_sound; [|exact H].
    intros h (Hn & Hc & Hr). repeat split; simpl; [exact Hn| |].
    + intros o Ho. right. exact (Hc o Ho).
    + constructor; [|exact Hr].
      unfold mode_fields_int32, int32_range. simpl. repeat split; discriminate.
  - apply with_head_sound; [|exact H].
    intros h Hh. apply head_handle_current_mode_sound. exact Hh.
  - apply with_head_sound; [|exact H]. intros h Hh. exact Hh.
  - apply with_mode_sound; [reflexivity| |exact H].
    intros m (_ & _ & Hr). destruct Hev as [Hw Hh].
    split; [exact Hw|]. split; [exact Hh|exact Hr].
  - apply with_mode_sound; [reflexivity| |exact H].
    intros m (Hw & Hh & _).
    split; [exact Hw|]. split; [exact Hh|exact Hev].
  - apply with_mode_sound; [reflexivity| |exact H].
    intros m Hm. exact Hm.
  - apply with_mode_sound; [reflexivity| |exact H].
    intros m Hm. exact Hm.
Qed.

(** The registry after any sequence of events is sound. *)
Lemma handle_events_sound evs : forall state,
  Forall event_in_range evs ->
  Forall head_sound (cs_heads state) ->
  Forall head_sound (cs_heads (handle_events state evs)).
Proof.
  unfold handle_events.
  induction evs as [|ev evs IH]; intros state Hevs H; [exact H|].
  inversion Hevs; subst. simpl. apply IH; [assumption|].
  apply handle_event_sound; assumption.
Qed.

(** In a sound head a [current] that is not [NULL] can be dereferenced, and
    the entry reached is the one recorded. *)
Lemma current_mode_resolves h o :
  head_sound h -> head_current h = Some o ->
  exists m, current_mode h = Some m /\ mode_obj m = o.
Proof.
  intros (_ & Hc & _) Ho. specialize (Hc o Ho).
  unfold current_mode. rewrite Ho. clear Ho.
  induction (head_modes h) as [|m t IH]; [destruct Hc|].
  simpl. destruct (Z.eqb_spec (mode_obj m) o) as [E|N].
  - exists m. split; [reflexivity|exact E].
  - apply IH. destruct Hc as [Hc|Hc]; [contradiction|exact Hc].
Qed.

(* ------------------------------------------------------------------ *)
(** ** State file: reading *)

Lemma isspace_SP : isspace SP = true.
Proof. reflexivity. Qed.

Lemma isspace_NL : isspace NL = true.
Proof. reflexivity. Qed.

(** After the white space of the format, [%d] reads a printed field. *)
Lemma conv_d_field (z : Z) rest :
  int32_range z -> ends_number rest ->
  conv_d (skip_ws (SP :: print_int z ++ rest)) = Some (z, rest).
Proof.
  intros Hz Hrest. rewrite conv_d_skip_ws.
  unfold conv_d at 1. rewrite skip_ws_space by exact isspace_SP.
  fold (conv_d (print_int z ++ rest)).
  apply conv_d_print_int; assumption.
Qed.

(** One call of [fscanf] on a line [fprintf] wrote converts the four
    fields and stops before the newline. *)
Lemma fscanf_entry_line (name : cstring) (width height refresh : Z) tail :
  plain_name name ->
  int32_range width -> int32_range height -> int32_range refresh ->
  fscanf_entry (format_entry name width height refresh ++ tail)
  = ScanFour name width height refresh (NL :: tail).
Proof.
  intros Hname Hw Hh Hr. unfold fscanf_entry, format_entry.
  repeat (rewrite <- ?app_assoc; rewrite <- ?app_comm_cons).
  rewrite conv_s_name by (exact Hname || exact isspace_SP).
  rewrite conv_d_field by (assumption || reflexivity).
  rewrite conv_d_field by (assumption || reflexivity).
  rewrite conv_d_field by (assumption || reflexivity).
  reflexivity.
Qed.

(** White space in front of a record is skipped. *)
Lemma fscanf_entry_space c s :
  isspace c = true -> fscanf_entry (c :: s) = fscanf_entry s.
Proof.
  intros H. unfold fscanf_entry, conv_s.
  rewrite skip_ws_space by exact H. reflexivity.
Qed.

Lemma scan_word_length width : forall s word rest,
  scan_word width s = (word, rest) ->
  (List.length rest <= List.length s)%nat.
Proof.
  induction width as [|w IH]; intros s word rest E.
  - destruct s; injection E as <- <-; reflexivity.
  - destruct s as [|c t]; [injection E as <- <-; reflexivity|].
    cbn [scan_word] in E. destruct (isspace c).
    + injection E as <- <-. reflexivity.
    + destruct (scan_word w t) as [word' rest'] eqn:E'.
      injection E as <- <-. apply IH in E'. simpl. lia.
Qed.

Lemma scan_digits_length s : forall v v' rest,
  scan_digits v s = (v', rest) ->
  (List.length rest <= List.length s)%nat.
Proof.
  induction s as [|c t IH]; intros v v' rest E.
  - injection E as <- <-. reflexivity.
  - cbn [scan_digits] in E. destruct (isdigit c).
    + apply IH in E. simpl. lia.
    + injection E as <- <-. reflexivity.
Qed.

(** A conversion [%d] that succeeds consumes at least one character. *)
Lemma conv_d_length s v rest :
  conv_d s = Some (v, rest) -> (List.length rest < List.length s)%nat.
Proof.
  unfold conv_d. intros E.
  pose proof (skip_ws_length s) as Hs.
  destruct (skip_ws s) as [|c t]; [discriminate E|].
  assert (A : forall (neg : bool) (s1 : list ascii),
             (List.length s1 <= List.length (c :: t))%nat ->
             match s1 with
             | d :: _ =>
                 if isdigit d
                 then let '(v0, rest0) := scan_digits 0 s1 in
                      Some (scanned_int (if neg then - v0 else v0), rest0)
                 else None
             | [] => None
             end = Some (v, rest) ->
             (List.length rest < List.length s)%nat).
  { intros neg s1 Hlen E1. destruct s1 as [|d u]; [discriminate E1|].
    destruct (isdigit d) eqn:Hd; [|discriminate E1].
    cbn [scan_digits] in E1. rewrite Hd in E1.
    destruct (scan_digits (10 * 0 + digit_value d) u) as [v0 rest0] eqn:E0.
    injection E1 as _ <-. apply scan_digits_length in E0.
    simpl in Hlen, Hs |- *. lia. }
  destruct (Ascii.eqb c MINUS); [|destruct (Ascii.eqb c PLUS)].
  - apply (A true t); [simpl; lia|exact E].
  - apply (A false t); [simpl; lia|exact E].
  - apply (A false (c :: t)); [simpl; lia|exact E].
Qed.

Lemma conv_s_length width s word rest :
  conv_s width s = Some (word, rest) ->
  (List.length rest <= List.length s)%nat.
Proof.
  unfold conv_s. intros E. pose proof (skip_ws_length s) as Hs.
  destruct (skip_ws s) as [|c t] eqn:Es; [discriminate E|].
  injection E as E. apply scan_word_length in E. lia.
Qed.

(** A call of [fscanf] that converts four fields consumes input. *)
Lemma fscanf_entry_length s name width height refresh rest :
  fscanf_entry s = ScanFour name width height refresh rest ->
  (List.length rest < List.length s)%nat.
Proof.
  unfold fscanf_entry. intros E.
  destruct (conv_s 255 s) as [[n s1]|] eqn:E0; [|discriminate E].
  destruct (conv_d (skip_ws s1)) as [[w s2]|] eqn:E1; [|discriminate E].
  destruct (conv_d (skip_ws s2)) as [[h s3]|] eqn:E2; [|discriminate E].
  destruct (conv_d (skip_ws s3)) as [[r s4]|] eqn:E3; [|discriminate E].
  injection E as _ _ _ _ <-.
  apply conv_s_length in E0. apply conv_d_length in E1, E2, E3.
  pose proof (skip_ws_length s1). pose proof (skip_ws_length s2).
  pose proof (skip_ws_length s3). lia.
Qed.

(** With more iterations allowed than the input has characters, the loop
    of [load_state] ends by itself, with the same list whatever the
    allowance. *)
Lemma load_loop_fuel f1 : forall f2 s entries,
  (List.length s < f1)%nat -> (List.length s < f2)%nat ->
  load_loop f1 s entries = load_loop f2 s entries.
Proof.
  induction f1 as [|f1 IH]; intros f2 s entries H1 H2; [lia|].
  destruct f2 as [|f2]; [lia|].
  cbn [load_loop].
  destruct (fscanf_entry s) as [name w h r rest|ret] eqn:E; [|reflexivity].
  apply fscanf_entry_length in E. apply IH; lia.
Qed.

Lemma load_loop_total f : forall s entries,
  (List.length s < f)%nat -> exists es, load_loop f s entries = Some es.
Proof.
  induction f as [|f IH]; intros s entries H; [lia|].
  cbn [load_loop].
  destruct (fscanf_entry s) as [name w h r rest|ret] eqn:E.
  - apply fscanf_entry_length in E. apply IH. lia.
  - eexists. reflexivity.
Qed.

Lemma load_from_total s entries : exists es, load_from s entries = Some es.
Proof. apply load_loop_total. lia. Qed.

Lemma load_from_four s entries name width height refresh rest :
  fscanf_entry s = ScanFour name width height refresh rest ->
  load_from s entries
  = load_from rest ({| entry_name := strdup name; entry_width := width;
                       entry_height := height; entry_refresh := refresh |}
                      :: entries).
Proof.
  intros E. unfold load_from at 1. cbn [load_loop]. rewrite E.
  apply fscanf_entry_length in E. apply load_loop_fuel; lia.
Qed.

Lemma load_from_short s entries :
  fscanf_return (fscanf_entry s) <> 4 -> load_from s entries = Some entries.
Proof.
  intros H. unfold load_from. cbn [load_loop].
  destruct (fscanf_entry s); [simpl in H; congruence|reflexivity].
Qed.

Lemma load_from_space c s entries :
  isspace c = true -> load_from (c :: s) entries = load_from s entries.
Proof.
  intros H. unfold load_from.
  rewrite (load_loop_fuel _ (S (S (List.length s))) s); [|lia|lia].
  cbn [load_loop List.length]. rewrite (fscanf_entry_space c s H). reflexivity.
Qed.

(** The loop of [load_state] on the lines of well-formed entries: each is
    linked in front of those read before, and reading goes on behind
    them. *)
Lemma load_from_entries es : forall tail entries,
  Forall entry_well_formed es ->
  load_from (entries_text es ++ tail) entries
  = load_from tail (rev es ++ entries).
Proof.
  induction es as [|e es IH]; intros tail entries Hwf; [reflexivity|].
  inversion Hwf as [|? ? (Hc & Hn & Hw & Hh & Hr) Hwf']; subst.
  unfold entries_text. cbn [flat_map]. fold (entries_text es).
  rewrite <- app_assoc. unfold entry_line at 1.
  rewrite (load_from_four _ _ _ _ _ _ _
             (fscanf_entry_line _ _ _ _ _ Hn Hw Hh Hr)).
  rewrite load_from_space by exact isspace_NL.
  rewrite IH by exact Hwf'.
  rewrite (strdup_cstring _ Hc). cbn [rev]. rewrite <- app_assoc.
  destruct e; reflexivity.
Qed.

Lemma load_entries_text es bad :
  Forall entry_well_formed es ->
  fscanf_return (fscanf_entry bad) <> 4 ->
  load_entries (entries_text es ++ bad) = rev es.
Proof.
  intros Hwf Hbad. unfold load_entries.
  rewrite load_from_entries by exact Hwf.
  rewrite load_from_short by exact Hbad. apply app_nil_r.
Qed.

Lemma conv_d_no_number (s : list ascii) :
  no_number s -> conv_d (skip_ws s) = None.
Proof.
  unfold no_number, conv_d. rewrite skip_ws_idem.
  destruct (skip_ws s) as [|c t]; [reflexivity|].
  destruct (Ascii.eqb c MINUS); cbn [orb].
  - destruct t as [|d u]; [reflexivity|]. intros ->. reflexivity.
  - destruct (Ascii.eqb c PLUS).
    + destruct t as [|d u]; [reflexivity|]. intros ->. reflexivity.
    + intros ->. reflexivity.
Qed.

(** A malformed or incomplete record: a name followed by fewer than three
    numbers and then by text that is not a number (the end of the file,
    white space up to the end of the file, a word, ...).  [fscanf] returns
    the number of fields it could convert. *)
Lemma fscanf_entry_incomplete (name : cstring) (ints : list Z)
    (trail : list ascii) :
  plain_name name -> Forall int32_range ints ->
  (List.length ints < 3)%nat ->
  (ints = [] -> ends_word trail) -> (ints <> [] -> ends_number trail) ->
  no_number trail ->
  fscanf_entry (name ++ fields_text ints ++ trail)
  = ScanShort (Z.of_nat (S (List.length ints))).
Proof.
  intros Hname Hints Hlen Hw Hn Htrail.
  unfold fscanf_entry, fields_text.
  destruct ints as [|a [|b [|c ints]]]; [| | |simpl in Hlen; lia].
  - cbn [flat_map app].
    rewrite conv_s_name by auto.
    rewrite conv_d_no_number by exact Htrail. reflexivity.
  - inversion Hints as [|? ? Ha _]; subst.
    cbn [flat_map app]. rewrite app_nil_r.
    rewrite conv_s_name by (exact Hname || exact isspace_SP).
    rewrite conv_d_field by (exact Ha || (apply Hn; discriminate)).
    rewrite conv_d_no_number by exact Htrail. reflexivity.
  - inversion Hints as [|? ? Ha Hints']; subst.
    inversion Hints' as [|? ? Hb _]; subst.
    cbn [flat_map app]. rewrite app_nil_r.
    repeat (rewrite <- ?app_assoc; rewrite <- ?app_comm_cons).
    rewrite conv_s_name by (exact Hname || exact isspace_SP).
    rewrite conv_d_field by (assumption || reflexivity).
    rewrite conv_d_field by (exact Hb || (apply Hn; discriminate)).
    rewrite conv_d_no_number by exact Htrail. reflexivity.
Qed.

(** Nothing but white space is left: [fscanf] returns [EOF]. *)
Lemma fscanf_entry_white (trail : list ascii) :
  skip_ws trail = [] -> fscanf_entry trail = ScanShort (-1).
Proof. intros E. unfold fscanf_entry, conv_s. rewrite E. reflexivity. Qed.

Lemma fscanf_entry_eof : fscanf_return (fscanf_entry []) <> 4.
Proof. discriminate. Qed.

(** [save_state] writes the lines of the entries of the listed heads. *)
Lemma save_lines_entries heads :
  save_lines heads = entries_text (flat_map head_entry heads).
Proof.
  induction heads as [|h t IH]; [reflexivity|].
  cbn [save_lines flat_map]. unfold entries_text in *.
  rewrite flat_map_app, <- IH. unfold head_entry.
  destruct (head_name h) as [name|]; [|reflexivity].
  destruct (current_mode h) as [cur|]; [|reflexivity].
  cbn [flat_map]. rewrite app_nil_r. reflexivity.
Qed.

Lemma find_restore_entry_last l1 e l2 :
  (forall e', In e' l2 -> entry_name e' <> entry_name e) ->
  find_restore_entry (rev (l1 ++ e :: l2)) (entry_name e) = Some e.
Proof.
  intros Hl2. rewrite rev_app_distr. cbn [rev]. rewrite <- app_assoc.
  unfold find_restore_entry.
  assert (A : forall l r,
             (forall e', In e' l -> entry_name e' <> entry_name e) ->
             find (fun entry => cstr_eqb (entry_name entry) (entry_name e))
                  (l ++ r)
             = find (fun entry => cstr_eqb (entry_name entry) (entry_name e)) r).
  { induction l as [|x l IHl]; intros r Hl; [reflexivity|].
    cbn [app find].
    destruct (cstr_eqb (entry_name x) (entry_name e)) eqn:E.
    - apply cstr_eqb_eq in E. exfalso. exact (Hl x (or_introl eq_refl) E).
    - apply IHl. intros e' He'. apply Hl. right. exact He'. }
  rewrite A.
  - cbn [app find].
    rewrite (proj2 (cstr_eqb_eq (entry_name e) (entry_name e)) eq_refl).
    reflexivity.
  - intros e' He'. apply Hl2. apply in_rev. exact He'.
Qed.

(** C4, as the code has it: [load_state] links every record it reads in
    front of the ones read before, so [find_restore_entry], which returns
    the first match of the list, returns the entry written last in the
    file among those of the name looked up: a later record shadows the
    earlier ones. *)
Theorem C4_lookup_returns_last_record (path : string) (fs : filesystem)
    (l1 : list restore_entry) (e : restore_entry) (l2 : list restore_entry) :
  Forall entry_well_formed (l1 ++ e :: l2) ->
  fs_content fs path = Some (entries_text (l1 ++ e :: l2)) ->
  (forall e', In e' l2 -> entry_name e' <> entry_name e) ->
  find_restore_entry (load_state path fs) (entry_name e) = Some e.
Proof.
  intros Hwf Hfile Hl2. unfold load_state. rewrite Hfile.
  rewrite <- (app_nil_r (entries_text _)).
  rewrite (load_entries_text _ [] Hwf fscanf_entry_eof).
  apply find_restore_entry_last. exact Hl2.
Qed.

(** C8, as the code has it: in a registry built by the handlers, when
    every head that has a name and a current mode has a name that is not
    empty, holds no white space and is at most 255 bytes long, reading back
    the file [save_state] wrote yields exactly one entry (name, width,
    height, refresh of the current mode) for each of those heads and
    nothing else. *)
Theorem C8_state_file_round_trip (state : client_state) (path : string)
    (fs : filesystem) :
  fs_writable fs path = true ->
  Forall head_sound (cs_heads state) ->
  (forall head name cur,
      In head (cs_heads state) -> head_name head = Some name ->
      current_mode head = Some cur -> plain_name name) ->
  fst (fst (save_state path state fs)) = 0
  /\ load_state path (snd (save_state path state fs))
     = rev (flat_map head_entry (cs_heads state)).
Proof.
  intros Hw Hsound Hheads. unfold save_state. rewrite Hw.
  split; [reflexivity|].
  unfold load_state. cbn [snd write_file fs_content].
  rewrite String.eqb_refl, save_lines_entries.
  rewrite <- (app_nil_r (entries_text _)).
  apply load_entries_text; [|exact fscanf_entry_eof].
  apply Forall_forall. intros e He.
  apply in_flat_map in He. destruct He as (head & Hin & He).
  unfold head_entry in He.
  destruct (head_name head) as [name|] eqn:En; [|destruct He].
  destruct (current_mode head) as [cur|] eqn:Ec; [|destruct He].
  destruct He as [<-|[]].
  pose proof (Hheads head name cur Hin En Ec) as Hp.
  rewrite Forall_forall in Hsound.
  destruct (Hsound head Hin) as (Hn & _ & Hr).
  assert (Hcur : mode_fields_int32 cur).
  { unfold current_mode in Ec.
    destruct (head_current head) as [o|]; [|discriminate Ec].
    apply find_some in Ec. rewrite Forall_forall in Hr. apply Hr, Ec. }
  destruct Hcur as (Hm1 & Hm2 & Hm3).
  unfold entry_well_formed. cbn [entry_name entry_width entry_height
                                  entry_refresh].
  pose proof (Hn name En). tauto.
Qed.

(** C9, as the code has it: on a file made of the lines of well-formed
    records followed by an incomplete record (a name, then fewer than three
    numbers, then text of which [%d] converts nothing: the end of the file,
    a word, ...), the call of [fscanf] on that record converts fewer than
    four fields, the loop of [load_state] ends there, and [load_state]
    returns exactly the entries of the records before it, the one read last
    first.  [load_state] has no statement that prints.  A record that is
    malformed in another way, with four fields [fscanf] can convert, is
    loaded. *)
Theorem C9_load_stops_at_incomplete_record (es : list restore_entry)
    (name : cstring) (ints : list Z) (trail : list ascii)
    (path : string) (fs : filesystem) :
  Forall entry_well_formed es ->
  plain_name name -> Forall int32_range ints ->
  (List.length ints < 3)%nat ->
  (ints = [] -> ends_word trail) -> (ints <> [] -> ends_number trail) ->
  no_number trail ->
  fs_content fs path
  = Some (entries_text es ++ name ++ fields_text ints ++ trail) ->
  fscanf_entry (name ++ fields_text ints ++ trail)
  = ScanShort (Z.of_nat (S (List.length ints)))
  /\ load_state path fs = rev es.
Proof.
  intros Hwf Hname Hints Hlen Hw Hn Htrail Hfile.
  pose proof (fscanf_entry_incomplete name ints trail Hname Hints Hlen Hw Hn
                                      Htrail) as Hshort.
  split; [exact Hshort|].
  unfold load_state. rewrite Hfile.
  apply load_entries_text; [exact Hwf|].
  rewrite Hshort. cbn [fscanf_return]. lia.
Qed.

(* ------------------------------------------------------------------ *)
(** ** Mode selection: the result in general *)

Lemma select_step_inv seen acc m :
  select_inv seen acc -> select_inv (seen ++ [m]) (select_step acc m).
Proof.
  destruct acc as [[p l] a]. unfold select_inv, select_step.
  intros (Hp & Ha & Hl).
  assert (Hin : In m (seen ++ [m])) by (apply in_or_app; right; left; reflexivity).
  assert (Hpref :
    match (if mode_preferred m then Some m else p) with
    | None => Forall (fun e => mode_preferred e = false) (seen ++ [m])
    | Some q => In q (seen ++ [m]) /\ mode_preferred q = true
    end).
  { destruct (mode_preferred m) eqn:Em; [split; assumption|].
    destruct p as [q|].
    - destruct Hp as [Hq1 Hq2]. split; [apply in_or_app; left|]; assumption.
    - apply Forall_app. split; [exact Hp|]. constructor; [exact Em|constructor]. }
  destruct (Z.gtb_spec (mode_area m) a) as [Hgt|Hle].
  - split; [exact Hpref|]. split.
    + apply Forall_app. split.
      * apply (Forall_impl _ (P := fun e => mode_area e <= a)); [|exact Ha].
        intros e He. apply Z.le_trans with a; [exact He|].
        apply Z.lt_le_incl. exact Hgt.
      * constructor; [apply Z.le_refl|constructor].
    + split; [exact Hin|]. split; [reflexivity|].
      destruct l as [g|].
      * destruct Hl as (_ & _ & H0). apply Z.le_trans with a; [exact H0|].
        apply Z.lt_le_incl. exact Hgt.
      * subst a. apply Z.lt_pred_le. exact Hgt.
  - split; [exact Hpref|]. split.
    + apply Forall_app. split; [exact Ha|]. constructor; [exact Hle|constructor].
    + destruct l as [g|]; [|exact Hl].
      destruct Hl as (Hg & Hl). split; [apply in_or_app; left; exact Hg|exact Hl].
Qed.

Lemma fold_select_inv ms : forall seen acc,
  select_inv seen acc ->
  select_inv (seen ++ ms) (fold_left select_step ms acc).
Proof.
  induction ms as [|m ms IH]; intros seen acc H.
  - rewrite app_nil_r. exact H.
  - cbn [fold_left].
    replace (seen ++ m :: ms) with ((seen ++ [m]) ++ ms)
      by (rewrite <- app_assoc; reflexivity).
    apply IH. apply select_step_inv. exact H.
Qed.

Lemma select_inv_result (head : head_info) :
  select_inv (head_modes head)
             (fold_left select_step (head_modes head) (None, None, -1)).
Proof.
  apply (fold_select_inv (head_modes head) [] (None, None, -1)).
  repeat split; constructor.
Qed.

Lemma select_some_spec (head : head_info) (m : mode_info) :
  select_fullscreen_mode head = Some m ->
  In m (head_modes head)
  /\ (mode_preferred m = true
      \/ (Forall (fun e => mode_preferred e = false) (head_modes head)
          /\ 0 <= mode_area m
          /\ Forall (fun e => mode_area e <= mode_area m) (head_modes head))).
Proof.
  pose proof (select_inv_result head) as H.
  unfold select_fullscreen_mode.
  destruct (fold_left select_step (head_modes head) (None, None, -1))
    as [[p l] a].
  destruct H as (Hp & Ha & Hl). intros E. destruct p as [q|].
  - injection E as <-. destruct Hp. split; [assumption|left; assumption].
  - subst l. destruct Hl as (Hg & -> & H0).
    split; [exact Hg|]. right. split; [exact Hp|]. split; assumption.
Qed.

Lemma select_none_spec (head : head_info) :
  select_fullscreen_mode head = None
  <-> Forall (fun e => mode_preferred e = false /\ mode_area e < 0)
             (head_modes head).
Proof.
  pose proof (select_inv_result head) as H.
  unfold select_fullscreen_mode.
  destruct (fold_left select_step (head_modes head) (None, None, -1))
    as [[p l] a].
  destruct H as (Hp & Ha & Hl). split.
  - intros E. destruct p as [q|]; [discriminate E|]. subst l. subst a.
    rewrite Forall_forall in *. intros e He. split; [apply Hp; exact He|].
    specialize (Ha e He). simpl in Ha. lia.
  - intros Hall. destruct p as [q|].
    + destruct Hp as [Hq1 Hq2]. rewrite Forall_forall in Hall.
      destruct (Hall q Hq1) as [Hq _]. congruence.
    + destruct l as [g|]; [|reflexivity].
      destruct Hl as (Hg & -> & H0). rewrite Forall_forall in Hall.
      destruct (Hall g Hg) as [_ Hneg]. lia.
Qed.

(** X1: the mode [select_fullscreen_mode] returns is one of the head's own
    modes; it is a flagged mode as soon as the head has one, and otherwise a
    mode of non-negative area that no mode of the head exceeds; and the
    function returns none exactly when no mode is flagged and every area is
    negative. *)
Theorem select_fullscreen_mode_result (head : head_info) :
  (forall m,
      select_fullscreen_mode head = Some m ->
      In m (head_modes head)
      /\ (mode_preferred m = true
          \/ (Forall (fun e => mode_preferred e = false) (head_modes head)
              /\ 0 <= mode_area m
              /\ Forall (fun e => mode_area e <= mode_area m)
                        (head_modes head))))
  /\ (select_fullscreen_mode head = None
      <-> Forall (fun e => mode_preferred e = false /\ mode_area e < 0)
                 (head_modes head))
  /\ ((exists e, In e (head_modes head) /\ mode_preferred e = true) ->
      exists m, select_fullscreen_mode head = Some m
                /\ mode_preferred m = true).
Proof.
  split; [exact (select_some_spec head)|].
  split; [exact (select_none_spec head)|].
  intros (e & He & Hpe).
  destruct (select_fullscreen_mode head) as [m|] eqn:Es.
  - exists m. split; [reflexivity|].
    destruct (select_some_spec head m Es) as (_ & [Hm|(Hnone & _)]);
      [exact Hm|].
    rewrite Forall_forall in Hnone. specialize (Hnone e He). congruence.
  - apply select_none_spec in Es. rewrite Forall_forall in Es.
    destruct (Es e He) as [Hnp _]. congruence.
Qed.

(* ------------------------------------------------------------------ *)
(** ** Apply: what a transaction names *)

Lemma restore_target_member entries head m :
  restore_target entries head = Some m -> In m (head_modes head).
Proof.
  unfold restore_target, find_mode.
  destruct (head_name head) as [name|]; [|discriminate].
  destruct (find_restore_entry entries name) as [entry|]; [|discriminate].
  intros E. apply find_some in E. apply E.
Qed.

Lemma actions_name_registry target heads :
  (forall h m, target h = Some m -> In m (head_modes h)) ->
  forall e, In e (flat_map (head_actions target) heads) ->
  exists head mode,
    In head heads /\ In mode (head_modes head)
    /\ (e = EnableHead (head_obj head)
        \/ e = SetMode (head_obj head) (mode_obj mode)).
Proof.
  intros Ht e He.
  destruct (in_actions target heads e He) as (head & mode & Hin & T & Hs).
  exists head, mode. split; [exact Hin|]. split; [exact (Ht _ _ T)|exact Hs].
Qed.

(** The requests of either apply operation about heads are those of its
    loop. *)
Lemma apply_fullscreen_loop_effects state state_file fs e :
  effect_head e <> None ->
  In e (snd (fst (apply_fullscreen state state_file fs))) ->
  In e (flat_map (head_actions select_fullscreen_mode) (cs_heads state)).
Proof.
  intros He Hin. rewrite <- fullscreen_loop_actions.
  apply (apply_fullscreen_head_effects state state_file fs e He). exact Hin.
Qed.

Lemma apply_restore_loop_effects state state_file fs e :
  effect_head e <> None ->
  In e (snd (fst (apply_restore state state_file fs))) ->
  exists path,
    state_file = Some path
    /\ In e (flat_map (head_actions (restore_target (load_state path fs)))
                      (cs_heads state)).
Proof.
  intros He Hin. destruct state_file as [path|].
  - exists path. split; [reflexivity|].
    apply restore_loop_sent.
    apply (apply_restore_head_effects state path fs e He). exact Hin.
  - simpl in Hin. destruct Hin as [<-|[]]. simpl in He. congruence.
Qed.

Lemma apply_requests_spec (state : client_state) (state_file : option string)
    (fs : filesystem) (tx : list effect) :
  tx = snd (fst (apply_fullscreen state state_file fs))
  \/ tx = snd (fst (apply_restore state state_file fs)) ->
  forall e, effect_head e <> None -> In e tx ->
  exists head mode,
    In head (cs_heads state) /\ In mode (head_modes head)
    /\ (e = EnableHead (head_obj head)
        \/ e = SetMode (head_obj head) (mode_obj mode)).
Proof.
  intros [->| ->] e He Hin.
  - apply (actions_name_registry select_fullscreen_mode).
    + intros h m E. apply (select_some_spec h m E).
    + apply (apply_fullscreen_loop_effects state state_file fs); assumption.
  - destruct (apply_restore_loop_effects state state_file fs e He Hin)
      as (path & _ & Hloop).
    apply (actions_name_registry (restore_target (load_state path fs)));
      [|exact Hloop].
    intros h m E. exact (restore_target_member _ h m E).
Qed.

(** X2: whichever apply operation builds it, a transaction only names
    objects of the registry: every head it enables is a listed head, every
    mode it sets is a mode of that very head, and it holds no request to
    disable a head. *)
Theorem apply_requests_name_registry_objects (state : client_state)
    (state_file : option string) (fs : filesystem) (tx : list effect) :
  tx = snd (fst (apply_fullscreen state state_file fs))
  \/ tx = snd (fst (apply_restore state state_file fs)) ->
  (forall o, In (EnableHead o) tx ->
     exists head, In head (cs_heads state) /\ head_obj head = o)
  /\ (forall o m, In (SetMode o m) tx ->
      exists head mode,
        In head (cs_heads state) /\ head_obj head = o
        /\ In mode (head_modes head) /\ mode_obj mode = m)
  /\ (forall o, ~ In (DisableHead o) tx).
Proof.
  intros Htx.
  pose proof (apply_requests_spec state state_file fs tx Htx) as Hspec.
  split; [|split].
  - intros o Hin.
    assert (He : effect_head (EnableHead o) <> None) by discriminate.
    destruct (Hspec _ He Hin) as (head & mode & Hh & _ & [E|E]);
      [|discriminate E].
    exists head. split; [exact Hh|]. congruence.
  - intros o m Hin.
    assert (He : effect_head (SetMode o m) <> None) by discriminate.
    destruct (Hspec _ He Hin) as (head & mode & Hh & Hm & [E|E]);
      [discriminate E|].
    exists head, mode. injection E as -> ->. repeat split; assumption.
  - intros o Hin.
    assert (He : effect_head (DisableHead o) <> None) by discriminate.
    destruct (Hspec _ He Hin) as (head & mode & _ & _ & [E|E]);
      discriminate E.
Qed.

(** X3: [apply_fullscreen] enables every head that has a flagged mode or a
    mode of non-negative area, and sets one of that head's modes for it. *)
Theorem apply_fullscreen_covers_heads (state : client_state)
    (state_file : option string) (fs : filesystem) (head : head_info) :
  In head (cs_heads state) ->
  (exists e, In e (head_modes head)
             /\ (mode_preferred e = true \/ 0 <= mode_area e)) ->
  exists mode,
    select_fullscreen_mode head = Some mode
    /\ In mode (head_modes head)
    /\ In (EnableHead (head_obj head))
          (snd (fst (apply_fullscreen state state_file fs)))
    /\ In (SetMode (head_obj head) (mode_obj mode))
          (snd (fst (apply_fullscreen state state_file fs))).
Proof.
  intros Hin (e & He & Hgood).
  destruct (select_fullscreen_mode head) as [mode|] eqn:Es.
  - exists mode. split; [reflexivity|].
    split; [apply (select_some_spec head mode Es)|].
    destruct (actions_of_head select_fullscreen_mode (cs_heads state)
                head mode Hin Es) as [H1 H2].
    rewrite <- fullscreen_loop_actions in H1, H2.
    split; apply apply_fullscreen_head_effects;
      (discriminate || assumption).
  - exfalso. pose proof (proj1 (select_none_spec head) Es) as Hall.
    rewrite Forall_forall in Hall. destruct (Hall e He) as [Hp Ha].
    destruct Hgood as [Hg|Hg]; [congruence|lia].
Qed.

(* ------------------------------------------------------------------ *)
(** ** Registry events: what a sequence of events leaves *)

Lemma head_kept_refl h : head_kept h h.
Proof. split; [reflexivity|]. exists []. reflexivity. Qed.

Lemma head_kept_trans a b c : head_kept a b -> head_kept b c -> head_kept a c.
Proof.
  intros (E1 & f1 & M1) (E2 & f2 & M2). split; [congruence|].
  exists (f2 ++ f1). rewrite M2, M1, app_assoc. reflexivity.
Qed.

Lemma heads_kept_refl heads : Forall2 head_kept heads heads.
Proof. induction heads; constructor; [apply head_kept_refl|assumption]. Qed.

Lemma heads_kept_trans l1 : forall l2 l3,
  Forall2 head_kept l1 l2 -> Forall2 head_kept l2 l3 -> Forall2 head_kept l1 l3.
Proof.
  induction l1 as [|a l1 IH]; intros l2 l3 H12 H23.
  - inversion H12; subst. inversion H23; subst. constructor.
  - inversion H12 as [|? b ? l2' Hab H12']; subst.
    inversion H23 as [|? c ? l3' Hbc H23']; subst.
    constructor; [exact (head_kept_trans a b c Hab Hbc)|].
    exact (IH _ _ H12' H23').
Qed.

Lemma heads_kept_objs l l' :
  Forall2 head_kept l l' -> map head_obj l' = map head_obj l.
Proof.
  induction 1 as [|a b l l' (E & _) _ IH]; [reflexivity|].
  simpl. rewrite E, IH. reflexivity.
Qed.

Lemma with_head_kept o f heads :
  (forall h, head_kept h (f h)) -> Forall2 head_kept heads (with_head o f heads).
Proof.
  intros Hf. induction heads as [|h t IH]; simpl; [constructor|].
  destruct (head_obj h =? o).
  - constructor; [apply Hf|apply heads_kept_refl].
  - constructor; [apply head_kept_refl|exact IH].
Qed.

Lemma with_mode_kept o f heads :
  (forall m, mode_obj (f m) = mode_obj m) ->
  Forall2 head_kept heads (with_mode o f heads).
Proof.
  intros Hf. induction heads as [|h t IH]; simpl; [constructor|].
  destruct (with_mode_in o f (head_modes h)) as [modes|] eqn:E.
  - constructor; [|apply heads_kept_refl].
    split; [reflexivity|]. exists []. simpl.
    exact (with_mode_in_objs o f _ _ Hf E).
  - constructor; [apply head_kept_refl|exact IH].
Qed.

(** One event: the heads listed stay, in place; a head event of the manager
    puts its head in front. *)
Lemma handle_event_grows state ev :
  exists fresh kept,
    cs_heads (handle_event state ev) = fresh ++ kept
    /\ map head_obj fresh = announced_heads [ev]
    /\ Forall2 head_kept (cs_heads state) kept.
Proof.
  destruct ev; simpl;
    try (exists []; eexists; split; [reflexivity|]; split; [reflexivity|]).
  - eexists [_], _. split; [reflexivity|]. split; [reflexivity|].
    apply heads_kept_refl.
  - apply heads_kept_refl.
  - apply heads_kept_refl.
  - apply with_head_kept. intros h. split; [reflexivity|].
    exists []. reflexivity.
  - apply with_head_kept. intros h. split; [reflexivity|].
    exists []. reflexivity.
  - apply with_head_kept. intros h. split; [reflexivity|].
    exists [mode]. reflexivity.
  - apply with_head_kept. intros h. unfold head_handle_current_mode.
    destruct (find _ (head_modes h));
      (split; [reflexivity|exists []; reflexivity]).
  - apply with_head_kept. intros h. apply head_kept_refl.
  - apply with_mode_kept. reflexivity.
  - apply with_mode_kept. reflexivity.
  - apply with_mode_kept. reflexivity.
  - apply with_mode_kept. reflexivity.
Qed.

(** X4: no event ever takes a head or a mode out of the registry.  After
    any sequence of events the heads listed before are still listed, in the
    same order and each with the modes it had (behind the modes it gained);
    in front of them come the heads the manager announced, the one
    announced last first. *)
Theorem registry_only_grows (state : client_state) (evs : list event) :
  exists fresh kept,
    cs_heads (handle_events state evs) = fresh ++ kept
    /\ map head_obj fresh = rev (announced_heads evs)
    /\ Forall2 head_kept (cs_heads state) kept.
Proof.
  revert state. unfold handle_events.
  induction evs as [|ev evs IH]; intros state.
  - exists [], (cs_heads state). repeat split. apply heads_kept_refl.
  - cbn [fold_left].
    destruct (handle_event_grows state ev) as (f1 & k1 & E1 & O1 & K1).
    destruct (IH (handle_event state ev)) as (f2 & k2 & E2 & O2 & K2).
    rewrite E1 in K2.
    apply Forall2_app_inv_l in K2.
    destruct K2 as (k2a & k2b & Ka & Kb & ->).
    exists (f2 ++ k2a), k2b. split; [rewrite E2, app_assoc; reflexivity|].
    split; [|exact (heads_kept_trans _ _ _ K1 Kb)].
    rewrite map_app, O2, (heads_kept_objs _ _ Ka), O1.
    change (ev :: evs) with ([ev] ++ evs).
    unfold announced_heads. rewrite flat_map_app, rev_app_distr.
    f_equal. cbn [flat_map]. rewrite app_nil_r.
    destruct ev; reflexivity.
Qed.

Lemma handle_events_control evs : forall state,
  cs_serial (handle_events state evs) = last_serial evs (cs_serial state)
  /\ cs_done (handle_events state evs)
     = cs_done state || existsb settles evs
  /\ cs_manager (handle_events state evs) = cs_manager state.
Proof.
  unfold handle_events, last_serial.
  induction evs as [|ev evs IH]; intros state.
  - simpl. rewrite orb_false_r. repeat split.
  - cbn [fold_left existsb].
    destruct (IH (handle_event state ev)) as (Hs & Hd & Hm).
    rewrite Hs, Hd, Hm, orb_assoc.
    destruct ev; simpl; rewrite ?orb_false_r, ?orb_true_r; repeat split.
Qed.

Lemma last_serial_without_done evs : forall serial,
  Forall (fun ev => forall s, ev <> EvManagerDone s) evs ->
  last_serial evs serial = serial.
Proof.
  unfold last_serial.
  induction evs as [|ev evs IH]; intros serial H; [reflexivity|].
  inversion H as [|? ? Hev Hevs]; subst. cbn [fold_left].
  destruct ev; try (apply IH; exact Hevs).
  exfalso. exact (Hev _ eq_refl).
Qed.

(** X5: the serial the client holds is the one of the last [done] event it
    handled: the events that follow a [done] (a [finished] of the manager
    among them) leave the serial alone, and once [done] is set no event
    clears it. *)
Theorem serial_of_last_done (state : client_state) (evs1 evs2 : list event)
    (serial : Z) :
  Forall (fun ev => forall s, ev <> EvManagerDone s) evs2 ->
  cs_serial (handle_events state (evs1 ++ EvManagerDone serial :: evs2))
  = serial
  /\ cs_done (handle_events state (evs1 ++ EvManagerDone serial :: evs2))
     = true
  /\ cs_serial (handle_events state evs2) = cs_serial state
  /\ (cs_done state = true -> cs_done (handle_events state evs2) = true).
Proof.
  intros Hno.
  destruct (handle_events_control (evs1 ++ EvManagerDone serial :: evs2) state)
    as (Hs & Hd & _).
  destruct (handle_events_control evs2 state) as (Hs2 & Hd2 & _).
  split; [|split; [|split]].
  - rewrite Hs. unfold last_serial. rewrite fold_left_app. cbn [fold_left].
    apply (last_serial_without_done evs2 serial Hno).
  - rewrite Hd, existsb_app. cbn [existsb settles].
    rewrite orb_true_l, !orb_true_r. reflexivity.
  - rewrite Hs2. apply last_serial_without_done. exact Hno.
  - intros Hdone. rewrite Hd2, Hdone. reflexivity.
Qed.

(** X6: in the registry built from any sequence of events, the pointer
    [current] of a head is never dangling: when it is set it leads to a
    mode of that same head, the one whose object the event named; and every
    name held is a C string. *)
Theorem registry_current_never_dangles (evs : list event) (head : head_info) :
  Forall event_in_range evs ->
  In head (cs_heads (handle_events initial_state evs)) ->
  (forall o, head_current head = Some o ->
     exists m, current_mode head = Some m /\ mode_obj m = o
               /\ In m (head_modes head))
  /\ (forall name, head_name head = Some name -> is_cstring name)
  /\ Forall mode_fields_int32 (head_modes head).
Proof.
  intros Hev Hin.
  assert (Hs : head_sound head).
  { pose proof (handle_events_sound evs initial_state Hev (Forall_nil _)) as H.
    rewrite Forall_forall in H. exact (H head Hin). }
  split; [|split; apply Hs].
  intros o Ho. destruct (current_mode_resolves head o Hs Ho) as (m & Em & Eo).
  exists m. split; [exact Em|]. split; [exact Eo|].
  unfold current_mode in Em. rewrite Ho in Em.
  apply find_some in Em. apply Em.
Qed.

(* ------------------------------------------------------------------ *)
(** ** Command line and registry globals *)

Lemma parse_args_options opts : forall rest do_fullscreen do_restore state_file,
  parse_args (flat_map option_args opts ++ rest)
             do_fullscreen do_restore state_file
  = (let '(f, r, s) :=
       fold_left set_option opts (do_fullscreen, do_restore, state_file) in
     parse_args rest f r s).
Proof.
  induction opts as [|o opts IH]; intros rest f r s; [reflexivity|].
  cbn [flat_map fold_left]. rewrite <- app_assoc.
  destruct o; cbn [option_args app set_option]; cbn [parse_args];
    simpl String.eqb; cbv iota; apply IH.
Qed.

Lemma set_options_flags opts : forall f r s,
  fst (fst (fold_left set_option opts (f, r, s)))
  = f || existsb (fun o => match o with OptFullscreen => true | _ => false end)
                 opts
  /\ snd (fst (fold_left set_option opts (f, r, s)))
     = r || existsb (fun o => match o with OptRestore => true | _ => false end)
                    opts.
Proof.
  induction opts as [|o opts IH]; intros f r s.
  - simpl. rewrite !orb_false_r. split; reflexivity.
  - cbn [fold_left existsb].
    destruct o; cbn [set_option]; destruct (IH true r s) as [A1 A2];
      destruct (IH f true s) as [B1 B2]; destruct (IH f r s) as [C1 C2];
      destruct (IH f r (Some path)) as [D1 D2] || idtac;
      rewrite ?orb_false_l, ?orb_true_l, ?orb_true_r;
      split; assumption.
Qed.

Lemma parse_args_unknown (a : string) rest f r s :
  a <> "--fullscreen"%string -> a <> "--restore"%string ->
  a <> "--state-file"%string ->
  parse_args (a :: rest) f r s = None.
Proof.
  intros H1 H2 H3. cbn [parse_args].
  rewrite (proj2 (String.eqb_neq _ _) H1), (proj2 (String.eqb_neq _ _) H2),
    (proj2 (String.eqb_neq _ _) H3).
  reflexivity.
Qed.

(** X7: the loop over [argv] reads a command line made of [--fullscreen],
    [--restore] and [--state-file <path>] as the options it spells, the
    last [--state-file] winning; it rejects the command line at the first
    argument that is none of the three option names, and when
    [--state-file] comes last, without a path. *)
Theorem parse_args_command_line (opts : list cli_option) :
  parse_args (flat_map option_args opts) false false None
  = Some (fold_left set_option opts (false, false, None))
  /\ (forall a rest,
        a <> "--fullscreen"%string -> a <> "--restore"%string ->
        a <> "--state-file"%string ->
        parse_args (flat_map option_args opts ++ a :: rest) false false None
        = None)
  /\ parse_args (flat_map option_args opts ++ ["--state-file"%string])
                false false None
     = None.
Proof.
  split; [|split].
  - rewrite <- (app_nil_r (flat_map option_args opts)), parse_args_options.
    destruct (fold_left set_option opts (false, false, None)) as [[f r] s].
    reflexivity.
  - intros a rest H1 H2 H3. rewrite parse_args_options.
    destruct (fold_left set_option opts (false, false, None)) as [[f r] s].
    apply parse_args_unknown; assumption.
  - rewrite parse_args_options.
    destruct (fold_left set_option opts (false, false, None)) as [[f r] s].
    reflexivity.
Qed.

Lemma bind_version_min (version : Z) :
  (if version >? 4 then 4 else version) = Z.min version 4.
Proof. destruct (Z.gtb_spec version 4); lia. Qed.

Lemma fold_globals_other globals : forall state,
  Forall (fun g => snd (fst g) <> output_manager_interface) globals ->
  fold_left (fun st '(name, interface, version) =>
               registry_handle_global st name interface version)
            globals state = state.
Proof.
  induction globals as [|[[n i] v] globals IH]; intros state H; [reflexivity|].
  inversion H as [|? ? Hi Hrest]; subst. cbn [fold_left].
  unfold registry_handle_global at 2. simpl in Hi.
  rewrite (proj2 (String.eqb_neq _ _) Hi). apply IH. exact Hrest.
Qed.

(** X8: after the registry round trip the manager is bound exactly when
    some global carries the interface name of the output manager; it is
    bound to the last such global, at the version advertised but never
    above 4; and binding touches neither serial, [done] nor the heads. *)
Theorem bind_globals_manager (globals : list (Z * string * Z)) :
  (Forall (fun g => snd (fst g) <> output_manager_interface) globals ->
   bind_globals globals = initial_state)
  /\ (forall before name version after,
        globals = before ++ (name, output_manager_interface, version) :: after ->
        Forall (fun g => snd (fst g) <> output_manager_interface) after ->
        cs_manager (bind_globals globals) = Some (name, Z.min version 4)
        /\ cs_serial (bind_globals globals) = 0
        /\ cs_done (bind_globals globals) = false
        /\ cs_heads (bind_globals globals) = []).
Proof.
  pose proof fold_globals_other as Other.
  assert (Keep : forall gs st,
            cs_serial (fold_left (fun st '(name, interface, version) =>
                         registry_handle_global st name interface version)
                      gs st) = cs_serial st
            /\ cs_done (fold_left (fun st '(name, interface, version) =>
                         registry_handle_global st name interface version)
                      gs st) = cs_done st
            /\ cs_heads (fold_left (fun st '(name, interface, version) =>
                         registry_handle_global st name interface version)
                      gs st) = cs_heads st).
  { induction gs as [|[[n i] v] gs IH]; intros st; [repeat split|].
    cbn [fold_left]. destruct (IH (registry_handle_global st n i v))
      as (H1 & H2 & H3).
    rewrite H1, H2, H3. unfold registry_handle_global.
    destruct (String.eqb i output_manager_interface); repeat split. }
  split.
  - intros H. apply Other. exact H.
  - intros before name version after -> Hafter.
    destruct (Keep (before ++ (name, output_manager_interface, version) :: after)
                   initial_state) as (H1 & H2 & H3).
    split; [|split; [exact H1|split; [exact H2|exact H3]]].
    unfold bind_globals. rewrite fold_left_app. cbn [fold_left].
    rewrite Other by exact Hafter.
    unfold registry_handle_global. rewrite String.eqb_refl.
    cbn [cs_manager]. rewrite bind_version_min. reflexivity.
Qed.

(* ------------------------------------------------------------------ *)
(** ** [main]: exit code, requests, files *)

Lemma discovery_loop_spec rounds : forall state waited result,
  discovery_loop rounds state = Some (waited, result) ->
  Forall (fun e => is_configuration_request e = false) waited
  /\ match result with
     | Some state' =>
         cs_done state' = true /\ cs_manager state' = cs_manager state
         /\ Forall (fun e => e = DisplayRoundtrip) waited
     | None => In (Stderr MsgRoundtripFailed) waited
     end.
Proof.
  induction rounds as [|round rounds IH]; intros state waited result E.
  - simpl in E. destruct (cs_done state) eqn:Ed; [|discriminate E].
    injection E as <- <-. repeat split; try constructor; assumption.
  - simpl in E. destruct (cs_done state) eqn:Ed.
    + injection E as <- <-. repeat split; try constructor; assumption.
    + destruct round as [evs|].
      * destruct (discovery_loop rounds (handle_events state evs))
          as [[w r]|] eqn:El; [|discriminate E].
        injection E as <- <-.
        destruct (IH _ _ _ El) as (Hw & Hr). split; [constructor; [reflexivity|exact Hw]|].
        destruct r as [state'|].
        -- destruct Hr as (H1 & H2 & H3). split; [exact H1|]. split.
           ++ rewrite H2. apply (handle_events_control evs state).
           ++ constructor; [reflexivity|exact H3].
        -- right. exact Hr.
      * injection E as <- <-. split.
        -- repeat constructor.
        -- right. left. reflexivity.
Qed.

Lemma actions_no_create target heads serial :
  ~ In (CreateConfiguration serial) (flat_map (head_actions target) heads).
Proof.
  intros H. destruct (in_actions target heads _ H) as (h & m & _ & _ & [E|E]);
    discriminate E.
Qed.

Lemma apply_fullscreen_outcome state state_file fs :
  fst (fst (apply_fullscreen state state_file fs)) = 0
  /\ In (CreateConfiguration (cs_serial state))
        (snd (fst (apply_fullscreen state state_file fs)))
  /\ In ApplyConfiguration (snd (fst (apply_fullscreen state state_file fs)))
  /\ (forall s, In (CreateConfiguration s)
                   (snd (fst (apply_fullscreen state state_file fs))) ->
                s = cs_serial state)
  /\ (snd (apply_fullscreen state state_file fs) = fs
      \/ exists path,
           state_file = Some path /\ fs_writable fs path = true
           /\ snd (apply_fullscreen state state_file fs)
              = write_file fs path (save_lines (cs_heads state))).
Proof.
  assert (Body : forall said,
    (forall s, ~ In (CreateConfiguration s) said) ->
    In (CreateConfiguration (cs_serial state))
       (said ++ CreateConfiguration (cs_serial state)
             :: fullscreen_loop (cs_heads state)
             ++ [ApplyConfiguration; DestroyConfiguration; DisplayRoundtrip])
    /\ In ApplyConfiguration
       (said ++ CreateConfiguration (cs_serial state)
             :: fullscreen_loop (cs_heads state)
             ++ [ApplyConfiguration; DestroyConfiguration; DisplayRoundtrip])
    /\ (forall s, In (CreateConfiguration s)
       (said ++ CreateConfiguration (cs_serial state)
             :: fullscreen_loop (cs_heads state)
             ++ [ApplyConfiguration; DestroyConfiguration; DisplayRoundtrip])
        -> s = cs_serial state)).
  { intros said Hsaid. split; [|split].
    - apply in_or_app. right. left. reflexivity.
    - apply in_or_app. right. right. apply in_or_app. right. left. reflexivity.
    - intros s Hin. apply in_app_or in Hin. destruct Hin as [Hin|Hin].
      + exfalso. exact (Hsaid s Hin).
      + destruct Hin as [E|Hin]; [congruence|].
        apply in_app_or in Hin. destruct Hin as [Hin|Hin].
        * exfalso. rewrite fullscreen_loop_actions in Hin.
          exact (actions_no_create _ _ _ Hin).
        * destruct Hin as [E|[E|[E|[]]]]; discriminate E. }
  unfold apply_fullscreen, save_state.
  destruct state_file as [path|]; [destruct (fs_writable fs path) eqn:Ew|];
    cbn [fst snd].
  - destruct (Body []) as (B1 & B2 & B3); [intros s []|].
    split; [reflexivity|]. split; [exact B1|]. split; [exact B2|].
    split; [exact B3|]. right. exists path.
    split; [reflexivity|]. split; [exact Ew|reflexivity].
  - destruct (Body [Stderr (MsgOpenFailed path)]) as (B1 & B2 & B3).
    { intros s [E|[]]. discriminate E. }
    split; [reflexivity|]. split; [exact B1|]. split; [exact B2|].
    split; [exact B3|]. left. reflexivity.
  - destruct (Body []) as (B1 & B2 & B3); [intros s []|].
    split; [reflexivity|]. split; [exact B1|]. split; [exact B2|].
    split; [exact B3|]. left. reflexivity.
Qed.

(** [apply_restore] returns only when no state file was named, with 1;
    with a state file it creates the configuration and never returns. *)
Lemma apply_restore_outcome state state_file fs :
  snd (apply_restore state state_file fs) = fs
  /\ ((state_file = None
       /\ apply_restore state state_file fs
          = (Exit 1, [Stderr MsgRestoreNeedsStateFile], fs))
      \/ (exists path sent,
            state_file = Some path
            /\ apply_restore state state_file fs
               = (Undefined, CreateConfiguration (cs_serial state) :: sent, fs)
            /\ (forall s, ~ In (CreateConfiguration s) sent)
            /\ (forall msg, ~ In (Stderr msg) sent))).
Proof.
  destruct state_file as [path|].
  - rewrite apply_restore_effects. cbn [fst snd].
    split; [reflexivity|]. right. exists path. eexists.
    split; [reflexivity|]. split; [reflexivity|].
    assert (Hloop : forall e, In e (fst (restore_loop (load_state path fs)
                                                      (cs_heads state))) ->
                      exists h, effect_head e = Some h).
    { intros e Hin. apply restore_loop_sent in Hin.
      destruct (in_actions _ _ _ Hin) as (h & m & _ & _ & [->| ->]);
        eexists; reflexivity. }
    assert (Hsub : forall e, In e submit_requests -> effect_head e = None).
    { intros e [<-|[<-|[<-|[]]]]; reflexivity. }
    assert (Htail : forall e,
              In e (fst (restore_loop (load_state path fs) (cs_heads state))
                    ++ (if snd (restore_loop (load_state path fs)
                                             (cs_heads state))
                        then submit_requests else [])) ->
              (exists h, effect_head e = Some h) \/ In e submit_requests).
    { intros e Hin. apply in_app_or in Hin. destruct Hin as [Hin|Hin].
      - left. exact (Hloop e Hin).
      - right. destruct (snd (restore_loop _ _)); [exact Hin|destruct Hin]. }
    split.
    + intros s Hin. destruct (Htail _ Hin) as [(h & E)|Hs].
      * discriminate E.
      * destruct Hs as [E|[E|[E|[]]]]; discriminate E.
    + intros msg Hin. destruct (Htail _ Hin) as [(h & E)|Hs].
      * discriminate E.
      * destruct Hs as [E|[E|[E|[]]]]; discriminate E.
  - cbn [apply_restore fst snd]. split; [reflexivity|]. left.
    split; reflexivity.
Qed.

(** The ways [main] ends: with a failure before any apply operation, or
    with the result of the apply operation chosen on the command line, run
    on the registry the discovery loop left. *)
Lemma main_outcome argv env code effects fs' :
  main argv env = Some (code, effects, fs') ->
  (code = Exit 1 /\ fs' = env_fs env
   /\ Forall (fun e => is_configuration_request e = false) effects
   /\ exists msg, In (Stderr msg) effects)
  \/ exists do_fullscreen state_file waited state,
       parse_args (tl argv) false false None
       = Some (do_fullscreen, negb do_fullscreen, state_file)
       /\ discovery_loop (env_rounds env) (bind_globals (env_globals env))
          = Some (waited, Some state)
       /\ cs_manager (bind_globals (env_globals env)) <> None
       /\ ((do_fullscreen = true
            /\ exists result,
                 code = Exit result
                 /\ apply_fullscreen state state_file (env_fs env)
                    = (result, skipn (S (List.length waited)) effects, fs'))
           \/ (do_fullscreen = false
               /\ apply_restore state state_file (env_fs env)
                  = (code, skipn (S (List.length waited)) effects, fs')))
       /\ effects = DisplayRoundtrip :: waited
                    ++ skipn (S (List.length waited)) effects.
Proof.
  unfold main. fold (bind_globals (env_globals env)).
  destruct (parse_args (tl argv) false false None) as [[[df dr] sf]|].
  2:{ intros E. injection E as <- <- <-. left. repeat split.
      - repeat constructor.
      - eexists. left. reflexivity. }
  destruct (Bool.eqb df dr) eqn:Eb.
  { intros E. injection E as <- <- <-. left. repeat split.
    - repeat constructor.
    - eexists. left. reflexivity. }
  destruct (env_connect env); cbn [negb].
  2:{ intros E. injection E as <- <- <-. left. repeat split.
      - repeat constructor.
      - eexists. left. reflexivity. }
  destruct (cs_manager (bind_globals (env_globals env))) as [mgr|] eqn:Em.
  2:{ intros E. injection E as <- <- <-. left. repeat split.
      - repeat constructor.
      - eexists. right. left. reflexivity. }
  destruct (discovery_loop (env_rounds env) (bind_globals (env_globals env)))
    as [[waited [state|]]|] eqn:Ed; [| |discriminate].
  - assert (Hskip : forall aeff,
              skipn (S (List.length waited))
                    (DisplayRoundtrip :: waited ++ aeff) = aeff).
    { intros aeff. cbn [skipn].
      rewrite skipn_app, skipn_all, Nat.sub_diag. reflexivity. }
    assert (Hp : Some (df, dr, sf) = Some (df, negb df, sf))
      by (destruct df, dr; try discriminate Eb; reflexivity).
    destruct df.
    + destruct (apply_fullscreen state sf (env_fs env))
        as [[result aeff] fsa] eqn:Ea.
      intros E. injection E as <- <- <-. right.
      exists true, sf, waited, state. rewrite Hskip.
      split; [exact Hp|]. split; [reflexivity|]. split; [discriminate|].
      split; [|reflexivity].
      left. split; [reflexivity|]. exists result. split; [reflexivity|exact Ea].
    + destruct (apply_restore state sf (env_fs env))
        as [[result aeff] fsa] eqn:Ea.
      intros E. injection E as <- <- <-. right.
      exists false, sf, waited, state. rewrite Hskip.
      split; [exact Hp|]. split; [reflexivity|]. split; [discriminate|].
      split; [|reflexivity].
      right. split; [reflexivity|exact Ea].
  - intros E. injection E as <- <- <-. left.
    destruct (discovery_loop_spec _ _ _ _ Ed) as (Hw & Hfail).
    repeat split.
    + constructor; [reflexivity|exact Hw].
    + eexists. right. exact Hfail.
Qed.


(** X10: the only file a run of [main] can change is the state file named
    on the command line, and only in a [--fullscreen] run in which the file
    can be opened for writing; what it then holds are the lines of
    [save_state] for the registry at the end of discovery.  A [--restore]
    run writes nothing. *)
Theorem main_writes_only_state_file argv env code effects fs' (q : string) :
  main argv env = Some (code, effects, fs') ->
  fs_content fs' q <> fs_content (env_fs env) q ->
  exists waited state,
    parse_args (tl argv) false false None = Some (true, false, Some q)
    /\ fs_writable (env_fs env) q = true
    /\ discovery_loop (env_rounds env) (bind_globals (env_globals env))
       = Some (waited, Some state)
    /\ fs_content fs' q = Some (save_lines (cs_heads state)).
Proof.
  intros Hmain Hdiff.
  destruct (main_outcome _ _ _ _ _ Hmain)
    as [(_ & -> & _)|(df & sf & waited & state & Hp & Hd & _ & Ha & _)].
  - exfalso. apply Hdiff. reflexivity.
  - destruct Ha as [(-> & result & _ & Ha)|(-> & Ha)].
    + pose proof (apply_fullscreen_outcome state sf (env_fs env))
        as (_ & _ & _ & _ & Hfs).
      rewrite Ha in Hfs. cbn [snd] in Hfs.
      destruct Hfs as [->|(path & -> & Hw & ->)].
      * exfalso. apply Hdiff. reflexivity.
      * cbn [write_file fs_content] in Hdiff |- *.
        destruct (String.eqb_spec q path) as [->|Hne].
        -- exists waited, state. repeat split; assumption.
        -- exfalso. apply Hdiff. reflexivity.
    + pose proof (apply_restore_outcome state sf (env_fs env)) as (Hfs & _).
      rewrite Ha in Hfs. cbn [snd] in Hfs. subst fs'.
      exfalso. apply Hdiff. reflexivity.
Qed.

(** X11: a configuration is only ever created for a registry on which the
    discovery loop ended normally: [done] is set, the manager is bound, and
    the serial sent is the one the registry holds at that moment. *)
Theorem main_applies_settled_registry argv env code effects fs' (serial : Z) :
  main argv env = Some (code, effects, fs') ->
  In (CreateConfiguration serial) effects ->
  exists waited state,
    discovery_loop (env_rounds env) (bind_globals (env_globals env))
    = Some (waited, Some state)
    /\ cs_done state = true
    /\ cs_manager state <> None
    /\ cs_serial state = serial.
Proof.
  intros Hmain Hin.
  destruct (main_outcome _ _ _ _ _ Hmain)
    as [(_ & _ & Hquiet & _)|(df & sf & waited & state & _ & Hd & Hm & Ha & He)].
  - exfalso. rewrite Forall_forall in Hquiet.
    specialize (Hquiet _ Hin). discriminate Hquiet.
  - destruct (discovery_loop_spec _ _ _ _ Hd) as (_ & Hdone & Hmgr & Hw).
    exists waited, state. split; [exact Hd|]. split; [exact Hdone|].
    split; [rewrite Hmgr; exact Hm|].
    rewrite He in Hin. destruct Hin as [E|Hin]; [discriminate E|].
    apply in_app_or in Hin. destruct Hin as [Hin|Hin].
    { rewrite Forall_forall in Hw. specialize (Hw _ Hin). discriminate Hw. }
    remember (skipn (S (List.length waited)) effects) as aeff eqn:Eaeff.
    clear Eaeff He.
    destruct Ha as [(-> & result & _ & Ha)|(-> & Ha)].
    + pose proof (apply_fullscreen_outcome state sf (env_fs env))
        as (_ & _ & _ & Hs & _).
      rewrite Ha in Hs. cbn [fst snd] in Hs. symmetry. exact (Hs _ Hin).
    + destruct (apply_restore_outcome state sf (env_fs env))
        as (_ & [(_ & Hr)|(path & sent & _ & Hr & Hnc & _)]);
        rewrite Ha in Hr; injection Hr as _ Hr _; rewrite Hr in Hin.
      * destruct Hin as [E|[]]. discriminate E.
      * destruct Hin as [E|Hin]; [congruence|].
        exfalso. exact (Hnc _ Hin).
Qed.

(** X12: a command line that names both [--fullscreen] and [--restore], or
    neither, or holds an argument that is no option, or ends in
    [--state-file] without a path, makes [main] print the usage text and
    return 1 without connecting to the display, whatever the compositor
    and the files are. *)
Theorem main_usage_error (prog : string) (opts : list cli_option)
    (env : environment) :
  (existsb (fun o => match o with OptFullscreen => true | _ => false end) opts
   = existsb (fun o => match o with OptRestore => true | _ => false end) opts ->
   main (prog :: flat_map option_args opts) env
   = Some (1, [Stderr MsgUsage], env_fs env))
  /\ (forall a rest,
        a <> "--fullscreen"%string -> a <> "--restore"%string ->
        a <> "--state-file"%string ->
        main (prog :: flat_map option_args opts ++ a :: rest) env
        = Some (1, [Stderr MsgUsage], env_fs env))
  /\ main (prog :: flat_map option_args opts ++ ["--state-file"%string]) env
     = Some (1, [Stderr MsgUsage], env_fs env).
Proof.
  split; [|split].
  - intros Hsame. unfold main. cbn [tl].
    rewrite <- (app_nil_r (flat_map option_args opts)), parse_args_options.
    destruct (set_options_flags opts false false None) as [Hf Hr].
    destruct (fold_left set_option opts (false, false, None)) as [[f r] s].
    cbn [fst snd orb] in Hf, Hr. cbn [parse_args].
    rewrite Hf, Hr, Hsame, Bool.eqb_reflx. reflexivity.
  - intros a rest H1 H2 H3. unfold main. cbn [tl].
    rewrite parse_args_options.
    destruct (fold_left set_option opts (false, false, None)) as [[f r] s].
    rewrite parse_args_unknown by assumption. reflexivity.
  - unfold main. cbn [tl]. rewrite parse_args_options.
    destruct (fold_left set_option opts (false, false, None)) as [[f r] s].
    reflexivity.
Qed.

(* ------------------------------------------------------------------ *)
(** ** State file: what [load_state] yields on any file *)

Lemma scan_word_spec width : forall s word rest,
  scan_word width s = (word, rest) ->
  s = word ++ rest /\ (List.length word <= width)%nat
  /\ Forall (fun c => isspace c = false) word.
Proof.
  induction width as [|w IH]; intros s word rest E.
  - destruct s; simpl in E; inversion E; subst; simpl;
      (split; [reflexivity|split; [lia|constructor]]).
  - destruct s as [|c t].
    { simpl in E. inversion E; subst. simpl.
      split; [reflexivity|split; [lia|constructor]]. }
    cbn [scan_word] in E. destruct (isspace c) eqn:Ec.
    + inversion E; subst. simpl.
      split; [reflexivity|split; [lia|constructor]].
    + destruct (scan_word w t) as [word' rest'] eqn:E'.
      inversion E; subst. destruct (IH _ _ _ E') as (Happ & Hl & Hf).
      split; [simpl; rewrite <- Happ; reflexivity|].
      split; [simpl; lia|constructor; assumption].
Qed.

Lemma skip_ws_head s c t : skip_ws s = c :: t -> isspace c = false.
Proof.
  induction s as [|x s IH]; [discriminate|].
  cbn [skip_ws]. destruct (isspace x) eqn:Ex; [exact IH|].
  intros E. injection E as <- <-. exact Ex.
Qed.

Lemma conv_s_word w s word rest :
  conv_s (S w) s = Some (word, rest) ->
  word <> [] /\ (List.length word <= S w)%nat
  /\ Forall (fun c => isspace c = false) word
  /\ (List.length rest < List.length s)%nat.
Proof.
  unfold conv_s. intros E. pose proof (skip_ws_length s) as Hs.
  destruct (skip_ws s) as [|c t] eqn:Es; [discriminate E|].
  assert (E' : scan_word (S w) (c :: t) = (word, rest)) by congruence.
  clear E. pose proof (skip_ws_head s c t Es) as Hc.
  destruct (scan_word_spec _ _ _ _ E') as (Happ & Hlen & Hplain).
  cbn [scan_word] in E'. rewrite Hc in E'.
  destruct (scan_word w t) as [word' rest'] eqn:Et.
  inversion E'; subst. apply scan_word_length in Et.
  split; [discriminate|]. split; [exact Hlen|]. split; [exact Hplain|].
  simpl in Hs. lia.
Qed.

(** [%255s] stores between 1 and 255 characters, none of them white
    space, and consumes at least what it stores. *)
Lemma conv_s_spec s word rest :
  conv_s 255 s = Some (word, rest) ->
  word <> [] /\ (List.length word <= 255)%nat
  /\ Forall (fun c => isspace c = false) word
  /\ (List.length rest < List.length s)%nat.
Proof. exact (conv_s_word 254 s word rest). Qed.

Lemma strdup_spec (P : ascii -> Prop) s :
  (List.length (strdup s) <= List.length s)%nat
  /\ (Forall P s -> Forall P (strdup s)).
Proof.
  induction s as [|c t (IH1 & IH2)]; [split; [reflexivity|auto]|].
  cbn [strdup]. destruct (Ascii.eqb c NUL).
  - split; [simpl; lia|constructor].
  - split; [simpl; lia|].
    intros H. inversion H; subst. constructor; auto.
Qed.

(** Whatever the digits read, [%d] stores an [int]. *)
Lemma scanned_int_range (v : Z) : int32_range (scanned_int v).
Proof.
  unfold scanned_int, in_int32, int32_range, sint32.
  destruct (Z.leb_spec (-2147483648) v); cbn [andb].
  - destruct (Z.leb_spec v 2147483647); [lia|].
    pose proof (Z.mod_pos_bound (scanf_overflow v + 2147483648) 4294967296).
    lia.
  - pose proof (Z.mod_pos_bound (scanf_overflow v + 2147483648) 4294967296).
    lia.
Qed.

Lemma conv_d_range s v rest : conv_d s = Some (v, rest) -> int32_range v.
Proof.
  unfold conv_d.
  assert (A : forall (neg : bool) (s1 : list ascii),
             match s1 with
             | d :: _ =>
                 if isdigit d
                 then let '(v0, rest0) := scan_digits 0 s1 in
                      Some (scanned_int (if neg then - v0 else v0), rest0)
                 else None
             | [] => None
             end = Some (v, rest) -> int32_range v).
  { intros neg s1 E. destruct s1 as [|d u]; [discriminate E|].
    destruct (isdigit d); [|discriminate E].
    destruct (scan_digits 0 (d :: u)) as [v0 rest0].
    injection E as <- _. apply scanned_int_range. }
  destruct (skip_ws s) as [|c t]; [discriminate|].
  destruct (Ascii.eqb c MINUS); [|destruct (Ascii.eqb c PLUS)].
  - exact (A true t).
  - exact (A false t).
  - exact (A false (c :: t)).
Qed.

(** What one successful call of [fscanf] has stored and consumed. *)
Lemma fscanf_entry_spec s name width height refresh rest :
  fscanf_entry s = ScanFour name width height refresh rest ->
  name <> [] /\ (List.length name <= 255)%nat
  /\ Forall (fun c => isspace c = false) name
  /\ int32_range width /\ int32_range height /\ int32_range refresh
  /\ (List.length rest + 4 <= List.length s)%nat.
Proof.
  unfold fscanf_entry. intros E.
  destruct (conv_s 255 s) as [[n s1]|] eqn:E0; [|discriminate E].
  destruct (conv_d (skip_ws s1)) as [[w s2]|] eqn:E1; [|discriminate E].
  destruct (conv_d (skip_ws s2)) as [[h s3]|] eqn:E2; [|discriminate E].
  destruct (conv_d (skip_ws s3)) as [[r s4]|] eqn:E3; [|discriminate E].
  injection E as <- <- <- <- <-.
  destruct (conv_s_spec _ _ _ E0) as (Hne & Hlen & Hplain & Hc0).
  pose proof (conv_d_range _ _ _ E1). pose proof (conv_d_range _ _ _ E2).
  pose proof (conv_d_range _ _ _ E3).
  apply conv_d_length in E1, E2, E3.
  pose proof (skip_ws_length s1). pose proof (skip_ws_length s2).
  pose proof (skip_ws_length s3).
  split; [exact Hne|]. split; [exact Hlen|]. split; [exact Hplain|].
  split; [assumption|]. split; [assumption|]. split; [assumption|]. lia.
Qed.

Lemma load_loop_spec (P : restore_entry -> Prop) :
  (forall s name width height refresh rest,
      fscanf_entry s = ScanFour name width height refresh rest ->
      P {| entry_name := strdup name; entry_width := width;
           entry_height := height; entry_refresh := refresh |}) ->
  forall fuel s entries es,
    Forall P entries -> load_loop fuel s entries = Some es ->
    Forall P es
    /\ (4 * List.length es <= List.length s + 4 * List.length entries)%nat
    /\ exists read, es = read ++ entries.
Proof.
  intros HP. induction fuel as [|f IH]; intros s entries es Hacc E;
    [discriminate E|].
  cbn [load_loop] in E.
  destruct (fscanf_entry s) as [name w h r rest|ret] eqn:Es.
  - destruct (IH _ _ _ (Forall_cons _ (HP _ _ _ _ _ _ Es) Hacc) E)
      as (Hall & Hlen & read & ->).
    destruct (fscanf_entry_spec _ _ _ _ _ _ Es) as (_ & _ & _ & _ & _ & _ & Hc).
    split; [exact Hall|]. split; [cbn [List.length] in Hlen; lia|].
    exists (read ++ [{| entry_name := strdup name; entry_width := w;
                        entry_height := h; entry_refresh := r |}]).
    rewrite <- app_assoc. reflexivity.
  - injection E as <-. split; [exact Hacc|]. split; [lia|].
    exists []. reflexivity.
Qed.

Lemma loaded_entry_shape s name width height refresh rest :
  fscanf_entry s = ScanFour name width height refresh rest ->
  (List.length (strdup name) <= 255)%nat
  /\ is_cstring (strdup name)
  /\ Forall (fun c => isspace c = false) (strdup name)
  /\ int32_range width /\ int32_range height /\ int32_range refresh.
Proof.
  intros E.
  destruct (fscanf_entry_spec _ _ _ _ _ _ E) as (_ & Hl & Hp & Hw & Hh & Hr & _).
  destruct (strdup_spec (fun c => isspace c = false) name) as (Hs1 & Hs2).
  split; [lia|]. split; [apply strdup_is_cstring|]. split; [auto|].
  split; [exact Hw|]. split; [exact Hh|exact Hr].
Qed.

(** X13: whatever the file holds, every entry [load_state] returns has a
    name of at most 255 bytes (the buffer is never overrun) without NUL or
    white space, and a width, height and refresh in the range of [int]. *)
Theorem load_state_entries_shape (path : string) (fs : filesystem)
    (e : restore_entry) :
  In e (load_state path fs) ->
  (List.length (entry_name e) <= 255)%nat
  /\ is_cstring (entry_name e)
  /\ Forall (fun c => isspace c = false) (entry_name e)
  /\ int32_range (entry_width e) /\ int32_range (entry_height e)
  /\ int32_range (entry_refresh e).
Proof.
  unfold load_state, load_entries, load_from.
  destruct (fs_content fs path) as [data|]; [|intros []].
  destruct (load_loop (S (List.length data)) data []) as [es|] eqn:El;
    [|intros []].
  intros Hin.
  destruct (load_loop_spec
              (fun e => (List.length (entry_name e) <= 255)%nat
                        /\ is_cstring (entry_name e)
                        /\ Forall (fun c => isspace c = false) (entry_name e)
                        /\ int32_range (entry_width e)
                        /\ int32_range (entry_height e)
                        /\ int32_range (entry_refresh e))
              loaded_entry_shape _ _ _ _ (Forall_nil _) El) as (Hall & _).
  rewrite Forall_forall in Hall. exact (Hall e Hin).
Qed.

(** X14: the loop of [load_state] ends on every file: each record read
    consumes at least four bytes, so the iterations allowed are never used
    up, and the file yields at most a quarter as many entries as it has
    bytes. *)
Theorem load_state_terminates (data : list ascii) :
  exists es,
    load_from data [] = Some es
    /\ load_entries data = es
    /\ (4 * List.length es <= List.length data)%nat.
Proof.
  destruct (load_from_total data []) as (es & E).
  exists es. split; [exact E|]. split.
  - unfold load_entries. rewrite E. reflexivity.
  - destruct (load_loop_spec (fun _ => True) (fun _ _ _ _ _ _ _ => I)
                _ _ _ _ (Forall_nil _) E) as (_ & Hlen & _).
    simpl in Hlen. lia.
Qed.

(* ------------------------------------------------------------------ *)
(** ** Restore: how a call ends, matching, and restore after save *)



(** The mode the loop of [apply_restore] finds for a head is a mode of that
    head with the width, height and refresh of an entry that carries the
    head's name. *)
Lemma restore_target_some entries head m :
  restore_target entries head = Some m ->
  exists e,
    In e entries /\ head_name head = Some (entry_name e)
    /\ In m (head_modes head)
    /\ mode_triple m = (entry_width e, entry_height e, entry_refresh e).
Proof.
  unfold restore_target, find_restore_entry, find_mode, mode_triple.
  destruct (head_name head) as [name|]; [|discriminate].
  destruct (find _ entries) as [e|] eqn:Ee; [|discriminate].
  intros Em. apply find_some in Ee. destruct Ee as [He Hn].
  apply cstr_eqb_eq in Hn. apply find_some in Em. destruct Em as [Hm Ht].
  apply andb_true_iff in Ht. destruct Ht as [Ht Hr].
  apply andb_true_iff in Ht. destruct Ht as [Hw Hh].
  apply Z.eqb_eq in Hw, Hh, Hr.
  exists e. split; [exact He|]. split; [congruence|]. split; [exact Hm|].
  congruence.
Qed.

(** X16: every mode a restore sets is backed by a record of the state
    file: the head it is set for carries the name of a loaded entry, and
    the mode has exactly the width, height and refresh of that entry.  (A
    request is issued only after both lookups for its head have stopped on
    a node.) *)
Theorem apply_restore_sets_recorded_modes (state : client_state)
    (state_file : option string) (fs : filesystem) (o m : object_id) :
  In (SetMode o m) (snd (fst (apply_restore state state_file fs))) ->
  exists path head mode e,
    state_file = Some path
    /\ In head (cs_heads state) /\ head_obj head = o
    /\ In mode (head_modes head) /\ mode_obj mode = m
    /\ In e (load_state path fs)
    /\ head_name head = Some (entry_name e)
    /\ mode_triple mode = (entry_width e, entry_height e, entry_refresh e).
Proof.
  intros Hin.
  assert (He : effect_head (SetMode o m) <> None) by discriminate.
  destruct (apply_restore_loop_effects state state_file fs _ He Hin)
    as (path & -> & Hloop).
  destruct (in_actions _ _ _ Hloop) as (head & mode & Hh & T & [E|E]);
    [discriminate E|].
  injection E as -> ->.
  destruct (restore_target_some _ _ _ T) as (e & H1 & H2 & H3 & H4).
  exists path, head, mode, e. repeat split; assumption.
Qed.




(* ------------------------------------------------------------------ *)
(** ** [current] is a pointer; the discovery loop *)

Lemma with_mode_in_none o f modes :
  (forall e, In e modes -> mode_obj e <> o) -> with_mode_in o f modes = None.
Proof.
  induction modes as [|m t IH]; intros H; [reflexivity|].
  simpl. destruct (Z.eqb_spec (mode_obj m) o) as [E|_].
  - exfalso. exact (H m (or_introl eq_refl) E).
  - rewrite IH; [reflexivity|]. intros e He. apply H. right. exact He.
Qed.

Lemma with_mode_in_find o f modes : forall cur,
  (forall m, mode_obj (f m) = mode_obj m) ->
  find (fun e => mode_obj e =? o) modes = Some cur ->
  exists modes',
    with_mode_in o f modes = Some modes'
    /\ find (fun e => mode_obj e =? o) modes' = Some (f cur).
Proof.
  induction modes as [|m t IH]; intros cur Hf E; [discriminate E|].
  simpl in E |- *. destruct (mode_obj m =? o) eqn:Em.
  - injection E as <-. eexists. split; [reflexivity|].
    simpl. rewrite Hf, Em. reflexivity.
  - destruct (IH cur Hf E) as (t' & Et & Ft). rewrite Et.
    eexists. split; [reflexivity|]. simpl. rewrite Em. exact Ft.
Qed.

Lemma with_mode_first o f before : forall head after,
  (forall h e, In h before -> In e (head_modes h) -> mode_obj e <> o) ->
  with_mode o f (before ++ head :: after)
  = before ++ match with_mode_in o f (head_modes head) with
              | Some modes => set_modes head modes :: after
              | None => head :: with_mode o f after
              end.
Proof.
  induction before as [|h t IH]; intros head after H; [reflexivity|].
  cbn [app with_mode].
  rewrite with_mode_in_none by (intros e He; exact (H h e (or_introl eq_refl) He)).
  rewrite IH; [reflexivity|]. intros h' e Hh'. apply H. right. exact Hh'.
Qed.

(** X19: [current] is a pointer into the mode list, not a copy.  When a
    size or refresh event reaches the mode a head's [current] points to,
    the current mode read afterwards (the one [save_state] writes) has the
    new size or refresh. *)
Theorem current_mode_follows_mode_events (state : client_state)
    (before after : list head_info) (head : head_info) (cur : mode_info)
    (mode : object_id) (ev : event) (update : mode_info -> mode_info) :
  cs_heads state = before ++ head :: after ->
  (forall h e, In h before -> In e (head_modes h) -> mode_obj e <> mode) ->
  head_current head = Some mode ->
  current_mode head = Some cur ->
  (exists width height,
      ev = EvModeSize mode width height
      /\ update = fun m => mode_handle_size m width height)
  \/ (exists refresh,
        ev = EvModeRefresh mode refresh
        /\ update = fun m => mode_handle_refresh m refresh) ->
  exists head',
    cs_heads (handle_event state ev) = before ++ head' :: after
    /\ head_obj head' = head_obj head
    /\ head_name head' = head_name head
    /\ head_current head' = Some mode
    /\ current_mode head' = Some (update cur).
Proof.
  intros Hheads Hbefore Hcur Hmode Hev.
  assert (Hobj : forall m, mode_obj (update m) = mode_obj m).
  { destruct Hev as [(w & h & _ & ->)|(r & _ & ->)]; reflexivity. }
  assert (Hstep : cs_heads (handle_event state ev)
                  = with_mode mode update (cs_heads state)).
  { destruct Hev as [(w & h & -> & ->)|(r & -> & ->)]; reflexivity. }
  unfold current_mode in Hmode. rewrite Hcur in Hmode.
  destruct (with_mode_in_find mode update _ cur Hobj Hmode) as (modes' & Ew & Ef).
  exists (set_modes head modes').
  rewrite Hstep, Hheads, (with_mode_first _ _ _ _ _ Hbefore), Ew.
  split; [reflexivity|]. split; [reflexivity|]. split; [reflexivity|].
  split; [exact Hcur|].
  unfold current_mode. cbn [set_modes head_current head_modes].
  rewrite Hcur. exact Ef.
Qed.

(** X20: the discovery loop of [main] reads whole round trips, one after
    the other, and stops after the first one that leaves [done] set: the
    registry it hands on is the one after all events of those round trips,
    those that follow the [done] in the last round trip included, and no
    later round trip is read. *)
Theorem discovery_loop_stops_at_done rounds state waited state' :
  discovery_loop rounds state = Some (waited, Some state') ->
  exists batches rest,
    rounds = map Some batches ++ rest
    /\ state' = fold_left handle_events batches state
    /\ waited = repeat DisplayRoundtrip (List.length batches)
    /\ cs_done state' = true
    /\ forall b1 b2,
         batches = b1 ++ b2 -> b2 <> [] ->
         cs_done (fold_left handle_events b1 state) = false.
Proof.
  revert state waited state'.
  induction rounds as [|round rounds IH]; intros state waited state' E.
  - simpl in E. destruct (cs_done state) eqn:Ed; [|discriminate E].
    injection E as <- <-. exists [], []. repeat split; [exact Ed|].
    intros b1 b2 Hb Hne. destruct b1; [|discriminate Hb].
    simpl in Hb. subst b2. contradiction.
  - simpl in E. destruct (cs_done state) eqn:Ed.
    + injection E as <- <-. exists [], (round :: rounds).
      repeat split; [exact Ed|].
      intros b1 b2 Hb Hne. destruct b1; [|discriminate Hb].
      simpl in Hb. subst b2. contradiction.
    + destruct round as [evs|]; [|discriminate E].
      destruct (discovery_loop rounds (handle_events state evs))
        as [[w r]|] eqn:El; [|discriminate E].
      injection E as <- ->.
      destruct (IH _ _ _ El) as (batches & rest & -> & -> & -> & Hdone & Hmin).
      exists (evs :: batches), rest. repeat split; [exact Hdone|].
      intros b1 b2 Hb Hne. destruct b1 as [|x b1]; [exact Ed|].
      injection Hb as -> Hb. cbn [fold_left]. exact (Hmin b1 b2 Hb Hne).
Qed.


End Client.

(* ------------------------------------------------------------------ *)
(** ** The theorems at concrete inputs *)

Ltac concrete :=
  repeat match goal with
         | |- True => exact I
         | |- _ /\ _ => split
         | |- Forall _ _ => constructor
         | |- NoDup _ => constructor
         | |- int32_range _ => vm_compute; split; discriminate
         | |- mode_fields_int32 _ => unfold mode_fields_int32
         | |- is_cstring _ => unfold is_cstring
         | |- plain_name _ => unfold plain_name
         | |- entry_well_formed _ => unfold entry_well_formed
         | |- event_in_range _ => simpl
         | |- (_ <= _)%nat => simpl; lia
         | |- (_ <= _)%Z => vm_compute; discriminate
         | |- _ <> _ => vm_compute; discriminate
         | |- ~ In _ _ => simpl; intuition discriminate
         | |- _ = _ => reflexivity
         end.

(** The preferred 1280x720 mode wins over the larger 1920x1080 one; with
    no preferred mode, 3840x2160 wins over 1920x1080 and 2560x1440. *)
Lemma C2_witness :
  Forall mode_fields_int32 (head_modes head_one_preferred)
  /\ select_fullscreen_mode head_one_preferred = Some mode_720_preferred
  /\ Forall mode_fields_int32 (head_modes head_sizes)
  /\ select_fullscreen_mode head_sizes = Some mode_2160.
Proof.
  assert (W1 : Forall mode_fields_int32 (head_modes head_one_preferred))
    by (simpl; concrete).
  assert (W2 : Forall mode_fields_int32 (head_modes head_sizes))
    by (simpl; concrete).
  split; [exact W1|]. split; [|split; [exact W2|]].
  - apply (proj1 (C2_select_fullscreen_mode head_one_preferred W1)
             [mode_1080] mode_720_preferred []); concrete.
  - apply (proj1 (proj2 (C2_select_fullscreen_mode head_sizes W2))
             [mode_1080] mode_2160 [mode_1440]);
      simpl; concrete; vm_compute; congruence.
Defined.

(** A head whose only mode has area -1: nothing is selected although the
    head has a mode of maximal area and none is flagged. *)
Lemma C2_counterexample :
  map head_modes (cs_heads state_negative_mode) = [[mode_negative]]
  /\ mode_preferred mode_negative = false
  /\ mode_fields_int32 mode_negative
  /\ mode_width mode_negative * mode_height mode_negative = -1
  /\ map select_fullscreen_mode (cs_heads state_negative_mode) = [None].
Proof. concrete. Qed.

(** Of two flagged modes the one enumerated last is selected. *)
Lemma C3_witness :
  head_modes head_two_preferred = [mode_1080_preferred] ++ [mode_720_preferred]
  /\ mode_preferred mode_720_preferred = true
  /\ select_fullscreen_mode head_two_preferred = Some mode_720_preferred.
Proof.
  split; [reflexivity|]. split; [reflexivity|].
  apply (C3_select_last_preferred head_two_preferred
           [mode_1080_preferred] mode_720_preferred []); concrete.
Defined.

(** Two flagged modes: the first one of the enumeration is the 1920x1080
    mode, the one selected is the 1280x720 mode. *)
Lemma C3_counterexample :
  find mode_preferred (head_modes head_two_preferred) = Some mode_1080_preferred
  /\ select_fullscreen_mode head_two_preferred = Some mode_720_preferred
  /\ mode_1080_preferred <> mode_720_preferred.
Proof. repeat split; [discriminate]. Qed.

(** No mode of the head has object 99: the event changes nothing. *)
Lemma C10_witness :
  (forall e, In e (head_modes head_one_preferred) -> mode_obj e <> 99)
  /\ head_handle_current_mode head_one_preferred 99 = head_one_preferred.
Proof.
  assert (W : forall e, In e (head_modes head_one_preferred) -> mode_obj e <> 99).
  { intros e [<-|[<-|[]]]; discriminate. }
  split; [exact W|].
  exact (proj1 C10_current_mode_without_match head_one_preferred 99 W).
Defined.

(** After its [finished] event the head is still listed, with its modes. *)
Lemma C6_counterexample :
  cs_heads (handle_event state_one_head (EvHeadFinished 1))
  = [head_one_preferred]
  /\ head_modes head_one_preferred = [mode_1080; mode_720_preferred].
Proof. split; reflexivity. Qed.

(** The manager finishes without a [done]: [main] still creates a
    configuration, with serial 0, enables the head and applies. *)
Lemma C7_counterexample :
  option_map fst
    (main truncating_overflow ["client"; "--fullscreen"]%string
          env_manager_finished)
  = Some (0, [DisplayRoundtrip; DisplayRoundtrip; CreateConfiguration 0;
              EnableHead 1; SetMode 1 11; ApplyConfiguration;
              DestroyConfiguration; DisplayRoundtrip]).
Proof. reflexivity. Qed.

(** With a file system that refuses every write, the failure is printed
    and the transaction follows. *)
Lemma C5_witness :
  fs_writable read_only_fs state_file_path = false
  /\ apply_fullscreen state_one_head (Some state_file_path) read_only_fs
     = (0,
        [Stderr (MsgOpenFailed state_file_path); CreateConfiguration 7;
         EnableHead 1; SetMode 1 12; ApplyConfiguration;
         DestroyConfiguration; DisplayRoundtrip],
        read_only_fs).
Proof.
  split; [reflexivity|].
  exact (proj2 (C5_unwritable_state_file_still_applies
                  state_one_head state_file_path read_only_fs eq_refl)).
Defined.

(** The state file cannot be opened for writing: the transaction is sent
    all the same and the result is 0. *)
Lemma C5_counterexample :
  fs_writable read_only_fs state_file_path = false
  /\ fst (fst (apply_fullscreen state_one_head (Some state_file_path)
                                read_only_fs)) = 0
  /\ In (CreateConfiguration 7)
        (snd (fst (apply_fullscreen state_one_head (Some state_file_path)
                                    read_only_fs)))
  /\ In ApplyConfiguration
        (snd (fst (apply_fullscreen state_one_head (Some state_file_path)
                                    read_only_fs))).
Proof. repeat split; simpl; auto 10. Qed.

(** [HDMI-1], listed first, has no record in the state file; [eDP-1],
    listed after it, has one, for a mode it offers.  The restore creates
    the configuration and sends nothing else: [eDP-1] is not enabled and
    nothing is applied. *)
Lemma C1_witness :
  restore_target (load_state truncating_overflow state_file_path
                             fs_edp_record) head_edp = Some mode_1080
  /\ apply_restore truncating_overflow state_hdmi_edp (Some state_file_path)
                   fs_edp_record
     = (Undefined, [CreateConfiguration 7], fs_edp_record)
  /\ (forall e,
        In e (snd (fst (apply_restore truncating_overflow state_hdmi_edp
                                      (Some state_file_path) fs_edp_record))) ->
        effect_head e <> Some (head_obj head_edp)).
Proof.
  assert (W : NoDup (map head_obj (cs_heads state_hdmi_edp))).
  { simpl. concrete. }
  assert (R : all_recorded (load_state truncating_overflow state_file_path
                                       fs_edp_record) []).
  { intros h n []. }
  destruct (C1_restore_stops_at_missing_record truncating_overflow
              state_hdmi_edp state_file_path fs_edp_record [] [head_edp]
              head_hdmi (text "HDMI-1") eq_refl W R eq_refl eq_refl)
    as (E & Hlater & _).
  split; [reflexivity|]. split; [exact E|].
  intros e. apply (Hlater head_edp e). left. reflexivity.
Defined.

(** Of two records for [eDP-1], the lookup finds the one written last. *)
Lemma C4_witness :
  fs_content (fs_with text_two_records) state_file_path
  = Some (entries_text [mk_entry "eDP-1" 1920 1080 60;
                        mk_entry "eDP-1" 1280 720 60])
  /\ find_restore_entry
       (load_state truncating_overflow state_file_path
                   (fs_with text_two_records))
       (text "eDP-1")
     = Some (mk_entry "eDP-1" 1280 720 60).
Proof.
  split; [reflexivity|].
  apply (C4_lookup_returns_last_record truncating_overflow state_file_path
           (fs_with text_two_records)
           [mk_entry "eDP-1" 1920 1080 60] (mk_entry "eDP-1" 1280 720 60) []).
  - simpl. concrete.
  - reflexivity.
  - intros e' [].
Defined.

(** Two records for [eDP-1]: the lookup returns the second one of the
    file, not the first. *)
Lemma C4_counterexample :
  text_two_records
  = entries_text [mk_entry "eDP-1" 1920 1080 60; mk_entry "eDP-1" 1280 720 60]
  /\ find_restore_entry
       (load_state truncating_overflow state_file_path
                   (fs_with text_two_records))
       (text "eDP-1")
     = Some (mk_entry "eDP-1" 1280 720 60)
  /\ mk_entry "eDP-1" 1280 720 60 <> mk_entry "eDP-1" 1920 1080 60.
Proof. repeat split; [discriminate]. Qed.

(** [eDP-1] at 1920x1080@60 is read back as that one entry. *)
Lemma C8_witness :
  fs_writable empty_fs state_file_path = true
  /\ Forall head_sound (cs_heads state_edp)
  /\ load_state truncating_overflow state_file_path
       (snd (save_state state_file_path state_edp empty_fs))
     = [mk_entry "eDP-1" 1920 1080 60].
Proof.
  assert (S : Forall head_sound (cs_heads state_edp)).
  { apply (handle_events_sound (events_one_output (text "eDP-1"))
             initial_state); [simpl; concrete|constructor]. }
  assert (W : forall head name cur,
             In head (cs_heads state_edp) -> head_name head = Some name ->
             current_mode head = Some cur -> plain_name name).
  { intros head name cur Hin Hn Hc. vm_compute in Hin.
    destruct Hin as [<-|[]]. injection Hn as <-. concrete. }
  split; [reflexivity|]. split; [exact S|].
  exact (proj2 (C8_state_file_round_trip truncating_overflow state_edp
                  state_file_path empty_fs eq_refl S W)).
Defined.

(** A head named with the empty string: its line reads [" 1920 1080 60"],
    of which [fscanf] converts three fields only; nothing is read back. *)
Lemma C8_counterexample :
  flat_map head_entry (cs_heads state_empty_name)
  = [{| entry_name := []; entry_width := 1920; entry_height := 1080;
        entry_refresh := 60 |}]
  /\ fst (fst (save_state state_file_path state_empty_name empty_fs)) = 0
  /\ fscanf_entry truncating_overflow (save_lines (cs_heads state_empty_name))
     = ScanShort 3
  /\ load_state truncating_overflow state_file_path
       (snd (save_state state_file_path state_empty_name empty_fs))
     = [].
Proof. repeat split; reflexivity. Qed.

(** A record, then ["HDMI-1 1920 1080"], which lacks the fourth field. *)
Lemma C9_witness :
  fs_content (fs_with text_trailing_partial) state_file_path
  = Some (entries_text [mk_entry "eDP-1" 1920 1080 60]
          ++ text "HDMI-1" ++ fields_text [1920; 1080] ++ [])
  /\ fscanf_entry truncating_overflow (text "HDMI-1 1920 1080") = ScanShort 3
  /\ load_state truncating_overflow state_file_path
       (fs_with text_trailing_partial)
     = [mk_entry "eDP-1" 1920 1080 60].
Proof.
  split; [reflexivity|].
  assert (Hwf : Forall entry_well_formed [mk_entry "eDP-1" 1920 1080 60])
    by (simpl; concrete).
  assert (Hname : plain_name (text "HDMI-1")) by concrete.
  assert (Hints : Forall int32_range [1920; 1080]) by concrete.
  assert (Hlen : (List.length [1920; 1080] < 3)%nat) by (simpl; lia).
  exact (C9_load_stops_at_incomplete_record truncating_overflow
           [mk_entry "eDP-1" 1920 1080 60] (text "HDMI-1") [1920; 1080] []
           state_file_path (fs_with text_trailing_partial)
           Hwf Hname Hints Hlen (fun _ => I) (fun _ => I) I eq_refl).
Defined.

(** A record, then ["HDMI-1 1920 1080 60x"]: the second record is not one
    [save_state] writes, yet [fscanf] converts four fields of it and
    [load_state] returns an entry for it, on top of the entry of the
    well-formed record. *)
Lemma C9_counterexample :
  fs_content (fs_with text_trailing_glued) state_file_path
  = Some (entries_text [mk_entry "eDP-1" 1920 1080 60]
          ++ text "HDMI-1 1920 1080 60x")
  /\ load_state truncating_overflow state_file_path
       (fs_with text_trailing_glued)
     = [mk_entry "HDMI-1" 1920 1080 60; mk_entry "eDP-1" 1920 1080 60]
  /\ load_state truncating_overflow state_file_path
       (fs_with text_trailing_glued)
     <> rev [mk_entry "eDP-1" 1920 1080 60].
Proof. split; [reflexivity|]. split; [reflexivity|discriminate]. Qed.

(* ------------------------------------------------------------------ *)
(** ** The further properties at concrete inputs *)

(** Two flagged modes: the one selected is flagged and is a mode of the
    head. *)
Lemma select_fullscreen_mode_result_witness :
  (exists e, In e (head_modes head_two_preferred) /\ mode_preferred e = true)
  /\ exists m, select_fullscreen_mode head_two_preferred = Some m
               /\ mode_preferred m = true.
Proof.
  assert (W : exists e, In e (head_modes head_two_preferred)
                        /\ mode_preferred e = true).
  { exists mode_1080_preferred. split; [left; reflexivity|reflexivity]. }
  split; [exact W|].
  exact (proj2 (proj2 (select_fullscreen_mode_result head_two_preferred)) W).
Defined.

(** The fullscreen transaction for two heads sets mode 12, a mode of
    head 1. *)
Lemma apply_requests_name_registry_objects_witness :
  In (SetMode 1 12) (snd (fst (apply_fullscreen state_two_heads None empty_fs)))
  /\ exists head mode,
       In head (cs_heads state_two_heads) /\ head_obj head = 1
       /\ In mode (head_modes head) /\ mode_obj mode = 12.
Proof.
  assert (W : In (SetMode 1 12)
                 (snd (fst (apply_fullscreen state_two_heads None empty_fs)))).
  { simpl. auto. }
  split; [exact W|].
  exact (proj1 (proj2 (apply_requests_name_registry_objects truncating_overflow
                         state_two_heads None empty_fs _ (or_introl eq_refl)))
           1 12 W).
Defined.

Lemma apply_fullscreen_covers_heads_witness :
  In head_one_preferred (cs_heads state_two_heads)
  /\ exists mode,
       select_fullscreen_mode head_one_preferred = Some mode
       /\ In mode (head_modes head_one_preferred)
       /\ In (EnableHead (head_obj head_one_preferred))
             (snd (fst (apply_fullscreen state_two_heads None empty_fs)))
       /\ In (SetMode (head_obj head_one_preferred) (mode_obj mode))
             (snd (fst (apply_fullscreen state_two_heads None empty_fs))).
Proof.
  assert (W : In head_one_preferred (cs_heads state_two_heads))
    by (left; reflexivity).
  split; [exact W|].
  apply (apply_fullscreen_covers_heads state_two_heads None empty_fs
           head_one_preferred W).
  exists mode_1080. split; [left; reflexivity|].
  right. vm_compute. discriminate.
Defined.

(** A [finished] of the manager after [done 7] leaves serial 7. *)
Lemma serial_of_last_done_witness :
  cs_serial (handle_events initial_state
               ([EvManagerHead 1] ++ EvManagerDone 7 :: [EvManagerFinished]))
  = 7.
Proof.
  apply (serial_of_last_done initial_state [EvManagerHead 1]
           [EvManagerFinished] 7).
  constructor; [discriminate|constructor].
Defined.

Lemma registry_current_never_dangles_witness :
  In head_edp (cs_heads state_edp)
  /\ forall o, head_current head_edp = Some o ->
       exists m, current_mode head_edp = Some m /\ mode_obj m = o
                 /\ In m (head_modes head_edp).
Proof.
  assert (W : In head_edp (cs_heads state_edp)) by (left; reflexivity).
  split; [exact W|].
  apply (registry_current_never_dangles (events_one_output (text "eDP-1"))
           head_edp); [simpl; concrete|exact W].
Defined.

(** [--state-file a --fullscreen --state-file b]: fullscreen, file [b]. *)
Lemma parse_args_command_line_witness :
  parse_args ["--state-file"; "a"; "--fullscreen"; "--state-file"; "b"]%string
             false false None
  = Some (true, false, Some "b"%string)
  /\ parse_args ["--fullscreen"; "-v"]%string false false None = None.
Proof.
  split.
  - exact (proj1 (parse_args_command_line
                    [OptStateFile "a"; OptFullscreen; OptStateFile "b"])).
  - apply (proj1 (proj2 (parse_args_command_line [OptFullscreen]))
             "-v"%string []); discriminate.
Defined.

(** Version 5 is advertised; the bind asks for version 4. *)
Lemma bind_globals_manager_witness :
  cs_manager (bind_globals (env_globals env_edp)) = Some (1, 4).
Proof.
  apply (proj2 (bind_globals_manager (env_globals env_edp))
           [(5, "wl_compositor"%string, 6)] 1 5 []);
    [reflexivity|constructor].
Defined.


Lemma main_writes_only_state_file_witness :
  fs_content (write_file empty_fs state_file_path (save_lines [head_edp]))
             state_file_path
  <> fs_content (env_fs env_edp) state_file_path
  /\ exists waited state,
       parse_args (tl argv_fullscreen_save) false false None
       = Some (true, false, Some state_file_path)
       /\ fs_writable (env_fs env_edp) state_file_path = true
       /\ discovery_loop (env_rounds env_edp) (bind_globals (env_globals env_edp))
          = Some (waited, Some state)
       /\ fs_content (write_file empty_fs state_file_path
                                 (save_lines [head_edp])) state_file_path
          = Some (save_lines (cs_heads state)).
Proof.
  assert (W : fs_content (write_file empty_fs state_file_path
                                     (save_lines [head_edp])) state_file_path
              <> fs_content (env_fs env_edp) state_file_path)
    by (vm_compute; discriminate).
  split; [exact W|].
  exact (main_writes_only_state_file truncating_overflow argv_fullscreen_save
           env_edp 0
           [DisplayRoundtrip; DisplayRoundtrip; CreateConfiguration 7;
            EnableHead 1; SetMode 1 11; ApplyConfiguration;
            DestroyConfiguration; DisplayRoundtrip]
           (write_file empty_fs state_file_path (save_lines [head_edp]))
           state_file_path eq_refl W).
Defined.

Lemma main_applies_settled_registry_witness :
  exists waited state,
    discovery_loop (env_rounds env_edp) (bind_globals (env_globals env_edp))
    = Some (waited, Some state)
    /\ cs_done state = true
    /\ cs_manager state <> None
    /\ cs_serial state = 7.
Proof.
  apply (main_applies_settled_registry truncating_overflow argv_fullscreen_save
           env_edp 0
           [DisplayRoundtrip; DisplayRoundtrip; CreateConfiguration 7;
            EnableHead 1; SetMode 1 11; ApplyConfiguration;
            DestroyConfiguration; DisplayRoundtrip]
           (write_file empty_fs state_file_path (save_lines [head_edp]))
           7 eq_refl).
  simpl. auto.
Defined.

(** [--fullscreen --restore] is a usage error before any connection. *)
Lemma main_usage_error_witness :
  main truncating_overflow ["client"; "--fullscreen"; "--restore"]%string
       env_edp
  = Some (1, [Stderr MsgUsage], env_fs env_edp).
Proof.
  exact (proj1 (main_usage_error truncating_overflow "client"
                  [OptFullscreen; OptRestore] env_edp) eq_refl).
Defined.

Lemma load_state_entries_shape_witness :
  In (mk_entry "eDP-1" 1280 720 60)
     (load_state truncating_overflow state_file_path (fs_with text_two_records))
  /\ (List.length (entry_name (mk_entry "eDP-1" 1280 720 60)) <= 255)%nat.
Proof.
  assert (W : In (mk_entry "eDP-1" 1280 720 60)
                 (load_state truncating_overflow state_file_path
                             (fs_with text_two_records)))
    by (left; reflexivity).
  split; [exact W|].
  exact (proj1 (load_state_entries_shape truncating_overflow state_file_path
                  (fs_with text_two_records) _ W)).
Defined.


Lemma apply_restore_sets_recorded_modes_witness :
  exists path head mode e,
    Some state_file_path = Some path
    /\ In head (cs_heads state_edp) /\ head_obj head = 1
    /\ In mode (head_modes head) /\ mode_obj mode = 11
    /\ In e (load_state truncating_overflow path
                        (fs_with text_trailing_partial))
    /\ head_name head = Some (entry_name e)
    /\ mode_triple mode = (entry_width e, entry_height e, entry_refresh e).
Proof.
  apply (apply_restore_sets_recorded_modes truncating_overflow state_edp
           (Some state_file_path) (fs_with text_trailing_partial) 1 11).
  simpl. auto.
Defined.



(** The current mode of [eDP-1] is resized after it was made current. *)
Lemma current_mode_follows_mode_events_witness :
  exists head',
    cs_heads (handle_event state_edp (EvModeSize 11 2560 1440))
    = [] ++ head' :: []
    /\ head_obj head' = head_obj head_edp
    /\ head_name head' = head_name head_edp
    /\ head_current head' = Some 11
    /\ current_mode head' = Some (mode_handle_size mode_1080 2560 1440).
Proof.
  apply (current_mode_follows_mode_events state_edp [] [] head_edp mode_1080
           11 (EvModeSize 11 2560 1440)
           (fun m => mode_handle_size m 2560 1440)).
  - reflexivity.
  - intros h e [].
  - reflexivity.
  - reflexivity.
  - left. exists 2560, 1440. split; reflexivity.
Defined.

(** The second round trip of [env_edp] is never read. *)
Lemma discovery_loop_stops_at_done_witness :
  exists batches rest,
    env_rounds env_edp = map Some batches ++ rest
    /\ state_edp = fold_left handle_events batches initial_state
    /\ [DisplayRoundtrip] = repeat DisplayRoundtrip (List.length batches)
    /\ cs_done state_edp = true
    /\ forall b1 b2,
         batches = b1 ++ b2 -> b2 <> [] ->
         cs_done (fold_left handle_events b1 initial_state) = false.
Proof.
  exact (discovery_loop_stops_at_done (env_rounds env_edp) initial_state
           [DisplayRoundtrip] state_edp eq_refl).
Defined.

(** The fullscreen transaction for two heads: the head without modes is
    not mentioned; the other one is enabled with its preferred mode. *)
Lemma apply_fullscreen_transaction_actions_witness :
  NoDup (map head_obj (cs_heads state_two_heads))
  /\ snd (fst (apply_fullscreen state_two_heads None empty_fs))
     = [CreateConfiguration 7; EnableHead 1; SetMode 1 12;
        ApplyConfiguration; DestroyConfiguration; DisplayRoundtrip]
  /\ (forall e,
        In e (snd (fst (apply_fullscreen state_two_heads None empty_fs))) ->
        effect_head e <> Some 2).
Proof.
  assert (W : NoDup (map head_obj (cs_heads state_two_heads))).
  { simpl. concrete. }
  split; [exact W|]. split; [reflexivity|].
  intros e.
  apply (proj1 (proj2 (apply_fullscreen_transaction_actions
                         state_two_heads None empty_fs _ W eq_refl))
           (mk_head 2 (Some (text "HDMI-1")) None []) e).
  - simpl. auto.
  - reflexivity.
Defined.

